(** * pfilter: a particle filter with systematic resampling

    Shallow embedding of [pfilter.py] and the properties of its update cycle.

    Numbers.  The program computes with numpy's float64.  They are modelled
    here as exact rationals extended with the three IEEE special values
    (plus and minus infinity, not-a-number): arithmetic on finite values is
    exact (no rounding, no overflow, no signed zero) and the special values
    follow the IEEE rules numpy applies (x/0, 0/0, inf-inf, comparisons with
    NaN).  Every statement below is a statement about that arithmetic.

    Arrays.  A numpy array is a shape and its elements in row-major order.
    The particle ensemble, which the program treats as an (N,D) matrix
    throughout, is kept as the list of its rows with its number of columns.

    Randomness.  The values the program draws from numpy's global generator
    and from the priors during one call are inputs of the model.

    Scope.  [resample], the kernels, [gaussian_noise], the default
    collaborators and the class [ParticleFilter] are embedded.  In
    [gaussian_noise] the standard normal values behind
    [np.random.normal] are inputs, and the array numpy returns is
    [loc + scale * z] for them. *)

From Stdlib Require Import List ZArith QArith Qreduction Lia Lqa Bool Arith.
From Stdlib Require String.
Import ListNotations.

Local Open Scope nat_scope.
Local Open Scope list_scope.

(* ================================================================== *)
(** ** Numbers *)

Module Num.

Inductive num : Type :=
| Fin (q : Q)
| PInf
| NInf
| NaN.

Definition zero : num := Fin 0.
Definition of_Z (z : Z) : num := Fin (inject_Z z).
Definition of_nat (n : nat) : num := of_Z (Z.of_nat n).

Definition is_nan (a : num) : bool :=
  match a with NaN => true | _ => false end.

Definition neg (a : num) : num :=
  match a with
  | Fin x => Fin (Qred (- x))
  | PInf => NInf
  | NInf => PInf
  | NaN => NaN
  end.

Definition add (a b : num) : num :=
  match a, b with
  | NaN, _ | _, NaN => NaN
  | Fin x, Fin y => Fin (Qred (x + y))
  | PInf, NInf | NInf, PInf => NaN
  | PInf, _ | _, PInf => PInf
  | NInf, _ | _, NInf => NInf
  end.

Definition sub (a b : num) : num := add a (neg b).

(** The infinity whose sign is the sign of [x]; 0 times infinity is NaN. *)
Definition signed_inf (x : Q) (pos : num) (negv : num) : num :=
  match (x ?= 0)%Q with
  | Gt => pos
  | Lt => negv
  | Eq => NaN
  end.

Definition mul (a b : num) : num :=
  match a, b with
  | NaN, _ | _, NaN => NaN
  | Fin x, Fin y => Fin (Qred (x * y))
  | Fin x, PInf | PInf, Fin x => signed_inf x PInf NInf
  | Fin x, NInf | NInf, Fin x => signed_inf x NInf PInf
  | PInf, PInf | NInf, NInf => PInf
  | PInf, NInf | NInf, PInf => NInf
  end.

Definition div (a b : num) : num :=
  match a, b with
  | NaN, _ | _, NaN => NaN
  | Fin x, Fin y =>
      match (y ?= 0)%Q with
      | Eq => signed_inf x PInf NInf
      | _ => Fin (Qred (x / y))
      end
  | Fin _, PInf | Fin _, NInf => Fin 0
  | PInf, Fin y => match (y ?= 0)%Q with Lt => NInf | _ => PInf end
  | NInf, Fin y => match (y ?= 0)%Q with Lt => PInf | _ => NInf end
  | PInf, PInf | PInf, NInf | NInf, PInf | NInf, NInf => NaN
  end.

(** [a > b]; false as soon as one side is NaN. *)
Definition gtb (a b : num) : bool :=
  match a, b with
  | Fin x, Fin y => match (x ?= y)%Q with Gt => true | _ => false end
  | PInf, Fin _ | PInf, NInf | Fin _, NInf => true
  | _, _ => false
  end.

Definition ltb (a b : num) : bool := gtb b a.

(** numpy's [maximum] and [minimum]: a NaN operand gives NaN. *)
Definition maximum (a b : num) : num :=
  if is_nan a || is_nan b then NaN else if ltb a b then b else a.

Definition minimum (a b : num) : num :=
  if is_nan a || is_nan b then NaN else if ltb b a then b else a.

Definition clip (lo hi a : num) : num := minimum (maximum a lo) hi.

Definition square (a : num) : num := mul a a.

(** The same value: equal rationals, or the same special value. *)
Definition eqv (a b : num) : Prop :=
  match a, b with
  | Fin x, Fin y => (x == y)%Q
  | PInf, PInf | NInf, NInf | NaN, NaN => True
  | _, _ => False
  end.

Definition is_fin (a : num) : bool :=
  match a with Fin _ => true | _ => false end.

(** [np.sum] of the elements in storage order; 0 for no element. *)
Definition sum (l : list num) : num := fold_left add l zero.

End Num.

Import Num.

Declare Scope num_scope.
Delimit Scope num_scope with num.
Bind Scope num_scope with num.
Infix "+" := Num.add : num_scope.
Infix "-" := Num.sub : num_scope.
Infix "*" := Num.mul : num_scope.
Infix "/" := Num.div : num_scope.
Infix ">?" := Num.gtb (at level 70, no associativity) : num_scope.
Infix "<?" := Num.ltb (at level 70, no associativity) : num_scope.
Infix "=~" := Num.eqv (at level 70, no associativity) : num_scope.

(* ================================================================== *)
(** ** Python exceptions and results *)

Inductive exn : Type :=
| IndexError
| ValueError
| TypeError
| AxisError.

Inductive result (A : Type) : Type :=
| Ok (a : A)
| Raise (e : exn).
Arguments Ok {A} a.
Arguments Raise {A} e.

Definition rbind {A B} (r : result A) (k : A -> result B) : result B :=
  match r with
  | Ok a => k a
  | Raise e => Raise e
  end.

(* ================================================================== *)
(** ** numpy arrays *)

Module NumPy.

Record ndarray : Type := mk_nd { shape : list nat; data : list num }.

Definition size_of (s : list nat) : nat := fold_right Nat.mul 1 s.

Definition ndim (a : ndarray) : nat := length (shape a).

(** The stored elements are as many as the shape says. *)
Definition valid (a : ndarray) : Prop := length (data a) = size_of (shape a).

(** A one-dimensional array. *)
Definition vec (l : list num) : ndarray := mk_nd [length l] l.

(** [len(a)]: the extent of the first axis; a 0-d array has no length. *)
Definition len (a : ndarray) : result nat :=
  match shape a with
  | [] => Raise TypeError
  | n :: _ => Ok n
  end.

(** Block number [i] of [k] consecutive elements. *)
Definition block (k i : nat) (d : list num) : list num :=
  firstn k (skipn (i * k) d).

(** [a[:k]] flattened: the elements of the first [k] entries along axis 0
    (a slice stops at the end of the array). *)
Definition take_first (k : nat) (a : ndarray) : list num :=
  firstn (k * size_of (tl (shape a))) (data a).

Definition np_sum (a : ndarray) : num := Num.sum (data a).

Definition np_map (f : num -> num) (a : ndarray) : ndarray :=
  mk_nd (shape a) (map f (data a)).

(** [np.clip(a, lo, hi)]. *)
Definition np_clip (a : ndarray) (lo hi : num) : ndarray :=
  np_map (Num.clip lo hi) a.

(** [a / s] for a scalar [s]. *)
Definition np_div_scalar (a : ndarray) (s : num) : ndarray :=
  np_map (fun x => (x / s)%num) a.

(** *** Broadcasting *)

(** A shape extended on the left with axes of extent 1 up to [k] axes. *)
Definition pad_shape (k : nat) (s : list nat) : list nat :=
  repeat 1 (k - length s) ++ s.

(** The common shape of two shapes with as many axes: on every axis the
    extents are equal or one of them is 1. *)
Fixpoint broadcast_shape (s1 s2 : list nat) : option (list nat) :=
  match s1, s2 with
  | [], [] => Some []
  | a :: s1', b :: s2' =>
      match broadcast_shape s1' s2' with
      | None => None
      | Some r =>
          if a =? b then Some (a :: r)
          else if a =? 1 then Some (b :: r)
          else if b =? 1 then Some (a :: r)
          else None
      end
  | _, _ => None
  end.

(** The elements of [f x y] for broadcast operands: along an axis where an
    operand has extent 1 its only entry is used again and again. *)
Fixpoint broadcast_data (f : num -> num -> num) (s1 s2 : list nat)
    (d1 d2 : list num) : list num :=
  match s1, s2 with
  | a :: s1', b :: s2' =>
      flat_map (fun i =>
          broadcast_data f s1' s2'
            (block (size_of s1') (if a =? 1 then 0 else i) d1)
            (block (size_of s2') (if b =? 1 then 0 else i) d2))
        (seq 0 (if a =? 1 then b else a))
  | _, _ =>
      match d1, d2 with
      | x :: _, y :: _ => [f x y]
      | _, _ => []
      end
  end.

(** An elementwise binary operator of numpy ([x - y], [x * y]). *)
Definition np_binop (f : num -> num -> num) (x y : ndarray) : result ndarray :=
  let k := Nat.max (ndim x) (ndim y) in
  let s1 := pad_shape k (shape x) in
  let s2 := pad_shape k (shape y) in
  match broadcast_shape s1 s2 with
  | None => Raise ValueError
  | Some s => Ok (mk_nd s (broadcast_data f s1 s2 (data x) (data y)))
  end.

Definition np_sub : ndarray -> ndarray -> result ndarray := np_binop Num.sub.
Definition np_mul : ndarray -> ndarray -> result ndarray := np_binop Num.mul.
Definition np_add : ndarray -> ndarray -> result ndarray := np_binop Num.add.

(** *** Transposition: [a.T] reverses the axes *)

Fixpoint transpose_data (s : list nat) (d : list num) : list num :=
  match s with
  | [] => d
  | n :: s' =>
      let parts :=
        map (fun i => transpose_data s' (block (size_of s') i d)) (seq 0 n) in
      flat_map (fun p => map (fun part => nth p part NaN) parts)
        (seq 0 (size_of s'))
  end.

Definition np_T (a : ndarray) : ndarray :=
  mk_nd (rev (shape a)) (transpose_data (shape a) (data a)).

(** *** Reductions *)

(** [np.sum(a, axis=-1)]; numpy lets axis -1 through for a 0-d array, whose
    sum is the array. *)
Definition np_sum_last (a : ndarray) : ndarray :=
  match rev (shape a) with
  | [] => a
  | m :: r =>
      mk_nd (rev r)
        (map (fun i => Num.sum (block m i (data a))) (seq 0 (size_of r)))
  end.

(** [np.sum(a, axis=(1,2))]: axes 1 and 2 must exist; the axes after them,
    if any, are kept. *)
Definition np_sum_axes12 (a : ndarray) : result ndarray :=
  match shape a with
  | n :: h :: w :: rest =>
      let R := size_of rest in
      Ok (mk_nd (n :: rest)
            (flat_map (fun i =>
                 let b := block (h * w * R) i (data a) in
                 map (fun r =>
                        Num.sum (map (fun k => nth (k * R + r) b NaN)
                                   (seq 0 (h * w))))
                   (seq 0 R))
               (seq 0 n)))
  | _ => Raise AxisError
  end.

(** *** Matrices: two-dimensional arrays kept by rows *)

Record matrix : Type := mk_matrix { ncols : nat; rows : list (list num) }.

Definition nrows (P : matrix) : nat := length (rows P).

(** The array is [n] by [k]. *)
Definition has_shape (n k : nat) (P : matrix) : Prop :=
  nrows P = n /\ ncols P = k /\ Forall (fun r => length r = k) (rows P).

Definition of_matrix (P : matrix) : ndarray :=
  mk_nd [nrows P; ncols P] (concat (rows P)).

(** [np.zeros((n, k))] *)
Definition np_zeros (n k : nat) : matrix :=
  mk_matrix k (repeat (repeat (Fin 0) k) n).

(** One index of a fancy index along an axis of extent [n]: a negative
    index counts from the end. *)
Definition norm_index (n : nat) (i : Z) : result nat :=
  if ((i <? - Z.of_nat n) || (Z.of_nat n <=? i))%Z then Raise IndexError
  else Ok (Z.to_nat (if (i <? 0)%Z then i + Z.of_nat n else i)%Z).

Fixpoint gather (rws : list (list num)) (indices : list Z)
    : result (list (list num)) :=
  match indices with
  | [] => Ok []
  | i :: indices' =>
      rbind (norm_index (length rws) i) (fun k =>
        rbind (gather rws indices') (fun rest =>
          Ok (nth k rws [] :: rest)))
  end.

(** [P[indices, :]] *)
Definition take_rows (P : matrix) (indices : list Z) : result matrix :=
  rbind (gather (rows P) indices) (fun rws => Ok (mk_matrix (ncols P) rws)).

(** Entry [i] of a row replaced. *)
Fixpoint set_nth (i : nat) (v : num) (r : list num) {struct r} : list num :=
  match r, i with
  | [], _ => []
  | _ :: r', O => v :: r'
  | x :: r', S i' => x :: set_nth i' v r'
  end.

(** [P[:, i] = vals]: the column must exist, and [vals] has one value per
    row or a single value for all of them. *)
Definition set_column (P : matrix) (i : nat) (vals : list num)
    : result matrix :=
  if ncols P <=? i then Raise IndexError
  else if length vals =? nrows P then
    Ok (mk_matrix (ncols P)
          (map (fun rv => set_nth i (snd rv) (fst rv)) (combine (rows P) vals)))
  else
    match vals with
    | [v] => Ok (mk_matrix (ncols P) (map (set_nth i v) (rows P)))
    | _ => Raise ValueError
    end.

(** [vals[mask]]: the mask has the length of [vals]. *)
Fixpoint select (mask : list bool) (vals : list num) : list num :=
  match mask, vals with
  | true :: mask', v :: vals' => v :: select mask' vals'
  | false :: mask', _ :: vals' => select mask' vals'
  | _, _ => []
  end.

Definition bool_index (mask : list bool) (vals : list num)
    : result (list num) :=
  if length mask =? length vals then Ok (select mask vals)
  else Raise IndexError.

(** The rows marked by the mask receive, in order, the values [sel] in
    column [i]; the other rows are passed over. *)
Fixpoint put_masked (mask : list bool) (i : nat) (rws : list (list num))
    (sel : list num) : list (list num) :=
  match mask, rws with
  | true :: mask', r :: rws' =>
      match sel with
      | v :: sel' => set_nth i v r :: put_masked mask' i rws' sel'
      | [] => r :: rws'
      end
  | false :: mask', r :: rws' => r :: put_masked mask' i rws' sel
  | _, _ => rws
  end.

Definition count_true (mask : list bool) : nat :=
  length (filter (fun b => b) mask).

(** [P[mask, i] = sel]: the mask has one entry per row, the column must
    exist, and [sel] has one value per marked row or a single value. *)
Definition set_column_masked (P : matrix) (mask : list bool) (i : nat)
    (sel : list num) : result matrix :=
  if negb (length mask =? nrows P) || (ncols P <=? i) then Raise IndexError
  else if length sel =? count_true mask then
    Ok (mk_matrix (ncols P) (put_masked mask i (rows P) sel))
  else
    match sel with
    | [v] =>
        Ok (mk_matrix (ncols P)
              (put_masked mask i (rows P) (repeat v (count_true mask))))
    | _ => Raise ValueError
    end.


End NumPy.

Import NumPy.

(* ================================================================== *)
(** ** The program *)

Module PFilter.

(** *** resample *)

(** [C = [0.] + [np.sum(weights[:i+1]) for i in range(n)]] *)
Definition cumulative (weights : ndarray) (n : nat) : list num :=
  Fin 0 :: map (fun i => Num.sum (take_first (i + 1) weights)) (seq 0 n).

(** [[(u0+i)/n for i in range(n)]] *)
Definition sample_points (u0 : num) (n : nat) : list num :=
  map (fun i => ((u0 + of_nat i) / of_nat n)%num) (seq 0 n).

(** [while u > C[j]: j += 1], run on the part of [C] that starts at the
    cursor: [rest] is [C[j:]].  Reading [C[j]] past the end of the list
    raises IndexError, which ends the loop. *)
Fixpoint advance (u : num) (rest : list num) (j : nat) : result nat :=
  match rest with
  | [] => Raise IndexError
  | c :: rest' => if (u >? c)%num then advance u rest' (S j) else Ok j
  end.

(** The [for u in ...] loop; [j] and [indices] are carried from one sample
    point to the next. *)
Fixpoint resample_loop (C : list num) (us : list num) (j : nat)
    (indices : list Z) : result (list Z) :=
  match us with
  | [] => Ok indices
  | u :: us' =>
      match advance u (skipn j C) j with
      | Raise e => Raise e
      | Ok j' => resample_loop C us' j' (indices ++ [(Z.of_nat j' - 1)%Z])
      end
  end.

(** [resample(weights)]; [u0] is the value of [np.random.random()]. *)
Definition resample (weights : ndarray) (u0 : num) : result (list Z) :=
  rbind (len weights) (fun n =>
    let C := cumulative weights n in
    resample_loop C (sample_points u0 n) 0 []).

(** *** The kernels and the default collaborators *)

Section Kernels.

(** [np.exp] on one number. *)
Variable np_exp : num -> num.

(** [make_heat_adjusted(sigma)]: the function [heat_distance]. *)
Definition make_heat_adjusted (sigma : num) : ndarray -> ndarray :=
  fun dist =>
    np_map (fun v =>
      np_exp (Num.neg (Num.square v) / (Fin 2 * Num.square sigma))%num) dist.

(** [squared_error(x, y, sigma)] *)
Definition squared_error (x y : ndarray) (sigma : num) : result ndarray :=
  rbind (np_sub x y) (fun diff =>
  rbind (np_sum_axes12 (np_map Num.square diff)) (fun dist =>
    Ok (np_map (fun v =>
          np_exp (Num.neg v / (Fin 2 * Num.square sigma))%num) dist))).

End Kernels.

Definition no_dynamics (x : matrix) : result matrix := Ok x.

Definition no_noise (x : matrix) : result matrix := Ok x.

(** *** gaussian_noise *)

(** [np.random.normal(np.zeros(k), sigmas, size=(n, k))] for [k] sigmas:
    numpy refuses a negative scale with ValueError; entry (i, c) of the
    array it returns is [0 + sigmas[c] * z], where [z = gauss i c] is the
    standard normal value drawn for that entry. *)
Definition np_random_normal (gauss : nat -> nat -> num) (sigmas : list num)
    (n : nat) : result ndarray :=
  if existsb (fun sg => (sg <? Fin 0)%num) sigmas then Raise ValueError
  else
    Ok (mk_nd [n; length sigmas]
          (flat_map (fun i =>
               map (fun c => (Fin 0 + nth c sigmas NaN * gauss i c)%num)
                 (seq 0 (length sigmas)))
             (seq 0 n))).

(** [gaussian_noise(x, sigmas)]; [x.shape[0]] is evaluated before the
    draw and raises IndexError on a 0-d array. *)
Definition gaussian_noise (gauss : nat -> nat -> num) (x : ndarray)
    (sigmas : list num) : result ndarray :=
  match shape x with
  | [] => Raise IndexError
  | n :: _ =>
      rbind (np_random_normal gauss sigmas n) (fun noise => np_add x noise)
  end.

(** *** The filter object *)

(** What the random sources return during one call: [u0] is the value of
    [np.random.random()] in [resample], [mask_draw k] is entry [k] of
    [np.random.random(size=(n_particles,))], and [rvs i n] is the array that
    [priors[i].rvs(n)] returns. *)
Record Draws : Type := {
  u0 : num;
  mask_draw : nat -> num;
  rvs : nat -> nat -> list num
}.

Section Filter.

(** The prior distributions are objects of which only [rvs] is called. *)
Context {prior : Type}.

(** The attributes of a [ParticleFilter].  Those that [update] creates do
    not exist on a new object: they are [None] until then. *)
Record ParticleFilter : Type := {
  column_names : option (list String.string);
  priors : list prior;
  d : nat;
  n_particles : nat;
  inverse_fn : matrix -> result ndarray;
  dynamics_fn : matrix -> result matrix;
  noise_fn : matrix -> result matrix;
  weight_fn : ndarray -> ndarray -> result ndarray;
  resample_proportion : num;
  particles : matrix;
  hypotheses : option ndarray;
  weights : option ndarray;
  mean_hypothesis : option ndarray;
  mean_state : option ndarray;
  resampled_particles : option (list bool)
}.

Definition set_particles (v : matrix) (s : ParticleFilter) : ParticleFilter :=
  {| column_names := column_names s; priors := priors s; d := d s;
     n_particles := n_particles s; inverse_fn := inverse_fn s;
     dynamics_fn := dynamics_fn s; noise_fn := noise_fn s;
     weight_fn := weight_fn s; resample_proportion := resample_proportion s;
     particles := v; hypotheses := hypotheses s; weights := weights s;
     mean_hypothesis := mean_hypothesis s; mean_state := mean_state s;
     resampled_particles := resampled_particles s |}.

Definition set_hypotheses (v : ndarray) (s : ParticleFilter) : ParticleFilter :=
  {| column_names := column_names s; priors := priors s; d := d s;
     n_particles := n_particles s; inverse_fn := inverse_fn s;
     dynamics_fn := dynamics_fn s; noise_fn := noise_fn s;
     weight_fn := weight_fn s; resample_proportion := resample_proportion s;
     particles := particles s; hypotheses := Some v; weights := weights s;
     mean_hypothesis := mean_hypothesis s; mean_state := mean_state s;
     resampled_particles := resampled_particles s |}.

Definition set_weights (v : ndarray) (s : ParticleFilter) : ParticleFilter :=
  {| column_names := column_names s; priors := priors s; d := d s;
     n_particles := n_particles s; inverse_fn := inverse_fn s;
     dynamics_fn := dynamics_fn s; noise_fn := noise_fn s;
     weight_fn := weight_fn s; resample_proportion := resample_proportion s;
     particles := particles s; hypotheses := hypotheses s; weights := Some v;
     mean_hypothesis := mean_hypothesis s; mean_state := mean_state s;
     resampled_particles := resampled_particles s |}.

Definition set_mean_hypothesis (v : ndarray) (s : ParticleFilter)
    : ParticleFilter :=
  {| column_names := column_names s; priors := priors s; d := d s;
     n_particles := n_particles s; inverse_fn := inverse_fn s;
     dynamics_fn := dynamics_fn s; noise_fn := noise_fn s;
     weight_fn := weight_fn s; resample_proportion := resample_proportion s;
     particles := particles s; hypotheses := hypotheses s;
     weights := weights s; mean_hypothesis := Some v;
     mean_state := mean_state s;
     resampled_particles := resampled_particles s |}.

Definition set_mean_state (v : ndarray) (s : ParticleFilter) : ParticleFilter :=
  {| column_names := column_names s; priors := priors s; d := d s;
     n_particles := n_particles s; inverse_fn := inverse_fn s;
     dynamics_fn := dynamics_fn s; noise_fn := noise_fn s;
     weight_fn := weight_fn s; resample_proportion := resample_proportion s;
     particles := particles s; hypotheses := hypotheses s;
     weights := weights s; mean_hypothesis := mean_hypothesis s;
     mean_state := Some v;
     resampled_particles := resampled_particles s |}.

Definition set_resampled_particles (v : list bool) (s : ParticleFilter)
    : ParticleFilter :=
  {| column_names := column_names s; priors := priors s; d := d s;
     n_particles := n_particles s; inverse_fn := inverse_fn s;
     dynamics_fn := dynamics_fn s; noise_fn := noise_fn s;
     weight_fn := weight_fn s; resample_proportion := resample_proportion s;
     particles := particles s; hypotheses := hypotheses s;
     weights := weights s; mean_hypothesis := mean_hypothesis s;
     mean_state := mean_state s;
     resampled_particles := Some v |}.

(** Methods run on the object: they return a value or raise, and leave the
    object as the statements executed so far have made it. *)
Definition M (A : Type) : Type := ParticleFilter -> result A * ParticleFilter.

Definition ret {A} (a : A) : M A := fun s => (Ok a, s).

Definition bind {A B} (m : M A) (k : A -> M B) : M B :=
  fun s =>
    match m s with
    | (Ok a, s') => k a s'
    | (Raise e, s') => (Raise e, s')
    end.

(** Reading an attribute. *)
Definition get {A} (f : ParticleFilter -> A) : M A := fun s => (Ok (f s), s).

(** Assigning an attribute. *)
Definition assign (f : ParticleFilter -> ParticleFilter) : M unit :=
  fun s => (Ok tt, f s).

(** A call that returns or raises without touching the object. *)
Definition call {A} (r : result A) : M A := fun s => (r, s).

End Filter.

Arguments ParticleFilter prior : clear implicits.
Arguments M prior A : clear implicits.

Notation "x <- m ;; k" := (bind m (fun x => k))
  (at level 61, m at next level, right associativity).
Notation "m ;;; k" := (bind m (fun _ => k))
  (at level 61, right associativity).

Section Methods.

Context {prior : Type}.
Variable np_exp : num -> num.

(** [ParticleFilter.__init__]; an argument left out is [None], and
    [n_particles] and [resample_proportion] are given by the caller (the
    program's defaults are 200 and 0.05). *)
Definition __init__ (priors0 : list prior) (inverse_fn0 : matrix -> result ndarray)
    (n_particles0 : nat)
    (dynamics_fn0 noise_fn0 : option (matrix -> result matrix))
    (weight_fn0 : option (ndarray -> ndarray -> result ndarray))
    (resample_proportion0 : num) (column_names0 : option (list String.string))
    : ParticleFilter prior :=
  {| column_names := column_names0;
     priors := priors0;
     d := length priors0;
     n_particles := n_particles0;
     inverse_fn := inverse_fn0;
     dynamics_fn := match dynamics_fn0 with Some f => f | None => no_dynamics end;
     noise_fn := match noise_fn0 with Some f => f | None => no_noise end;
     weight_fn := match weight_fn0 with
                  | Some f => f
                  | None => fun x y => squared_error np_exp x y (Fin 1)
                  end;
     resample_proportion := resample_proportion0;
     particles := np_zeros n_particles0 (length priors0);
     hypotheses := None; weights := None; mean_hypothesis := None;
     mean_state := None; resampled_particles := None |}.

(** The body of the loops of [init_filter], for prior number [i];
    the columns are assigned one after the other on the object. *)
Definition init_column (mask : option (list bool)) (rnd : Draws) (i : nat)
    : M prior unit :=
  n <- get n_particles ;;
  P <- get particles ;;
  match mask with
  | None =>
      P' <- call (set_column P i (rvs rnd i n)) ;;
      assign (set_particles P')
  | Some m =>
      sel <- call (bool_index m (rvs rnd i n)) ;;
      P' <- call (set_column_masked P m i sel) ;;
      assign (set_particles P')
  end.

Fixpoint init_columns (mask : option (list bool)) (rnd : Draws) (i : nat)
    (ps : list prior) : M prior unit :=
  match ps with
  | [] => ret tt
  | _ :: ps' => init_column mask rnd i ;;; init_columns mask rnd (S i) ps'
  end.

(** [ParticleFilter.init_filter(mask)] *)
Definition init_filter (mask : option (list bool)) (rnd : Draws)
    : M prior unit :=
  ps <- get priors ;;
  init_columns mask rnd 0 ps.

(** [np.sum(a.T * w, axis=-1).T] *)
Definition weighted_sum (a w : ndarray) : result ndarray :=
  rbind (np_mul (np_T a) w) (fun prod =>
    Ok (np_T (np_sum_last prod))).

(** An attribute that [update] has assigned before it reads it. *)
Definition attr (o : option ndarray) : ndarray :=
  match o with
  | Some a => a
  | None => mk_nd [] []
  end.

(** [ParticleFilter.update(observed)] *)
Definition update (observed : ndarray) (rnd : Draws) : M prior unit :=
  (* apply dynamics and noise *)
  f <- get dynamics_fn ;;
  P <- get particles ;;
  P1 <- call (f P) ;;
  assign (set_particles P1) ;;;
  g <- get noise_fn ;;
  P <- get particles ;;
  P2 <- call (g P) ;;
  assign (set_particles P2) ;;;
  (* invert to hypothesise observations *)
  h <- get inverse_fn ;;
  P <- get particles ;;
  hyp <- call (h P) ;;
  assign (set_hypotheses hyp) ;;;
  (* compute similarity to observations *)
  k <- get weight_fn ;;
  w <- call (k hyp observed) ;;
  (* force to be positive and normalise to "probabilities" *)
  let w := np_clip w (Fin 0) PInf in
  assign (set_weights (np_div_scalar w (np_sum w))) ;;;
  (* resampling step *)
  W <- get weights ;;
  indices <- call (resample (attr W) (u0 rnd)) ;;
  P <- get particles ;;
  P3 <- call (take_rows P indices) ;;
  assign (set_particles P3) ;;;
  (* mean hypothesis *)
  H <- get hypotheses ;;
  W <- get weights ;;
  mh <- call (weighted_sum (attr H) (attr W)) ;;
  assign (set_mean_hypothesis mh) ;;;
  P <- get particles ;;
  W <- get weights ;;
  ms <- call (weighted_sum (of_matrix P) (attr W)) ;;
  assign (set_mean_state ms) ;;;
  (* randomly resample some particles from the prior *)
  n <- get n_particles ;;
  rp <- get resample_proportion ;;
  let random_mask := map (fun i => (mask_draw rnd i <? rp)%num) (seq 0 n) in
  assign (set_resampled_particles random_mask) ;;;
  init_filter (Some random_mask) rnd.

End Methods.

End PFilter.

Import PFilter.

(* ================================================================== *)
(** ** What the properties are stated with *)

Module Spec.

(** *** Systematic resampling, as the specification words it *)

(** C[k]: the sum of the first [k] weights; C[0] = 0. *)
Definition Ctab (w : list num) (k : nat) : num := Num.sum (firstn k w).

(** The sample point u_i = (u0 + i)/N. *)
Definition upoint (u0 : num) (n i : nat) : num :=
  ((u0 + of_nat i) / of_nat n)%num.

(** For the sample point [u] the cursor goes from [j] to [j']: it passes
    every position [k] from [j] on where [u > C[k]] and stops at the first
    one, [j'], where that fails, inside the table C[0..N]. *)
Definition stops (w : list num) (u : num) (j j' : nat) : Prop :=
  j <= j' /\ j' <= length w /\
  (forall k, j <= k < j' -> (u >? Ctab w k)%num = true) /\
  (u >? Ctab w j')%num = false.

(** [indices] is the systematic resampling of [w] with offset [u0]: there
    is one cursor position per sample point, each reached from the one
    before (the first from 0), and the index selected is the cursor
    minus one. *)
Definition systematic (w : list num) (u0 : num) (indices : list Z) : Prop :=
  exists js : list nat,
    length js = length w /\
    indices = map (fun j => (Z.of_nat j - 1)%Z) js /\
    forall i, i < length w ->
      stops w (upoint u0 (length w) i) (nth i (0 :: js) 0) (nth i js 0).

(** Finite, non-negative weights that sum to 1. *)
Definition normalized (w : list num) : Prop :=
  (forall x, In x w -> exists q, x = Fin q /\ (0 <= q)%Q) /\
  (Num.sum w =~ Fin 1)%num.

(** A number of the interval [0,1). *)
Definition in_unit_interval (u : num) : Prop :=
  exists q, u = Fin q /\ (0 <= q)%Q /\ (q < 1)%Q.

(** *** Initialisation from the priors *)

(** Row [r] is one of those [init_filter(mask)] redraws. *)
Definition redrawn (mask : option (list bool)) (r : nat) : bool :=
  match mask with
  | None => true
  | Some m => nth r m false
  end.

(** The fresh particle number [r]: its column [c] is entry [r] of the
    sample that prior [c] returns. *)
Definition drawn_row (rnd : Draws) (n k r : nat) : list num :=
  map (fun c => nth r (rvs rnd c n) NaN) (seq 0 k).

(** *** Noise *)

(** Particle [i] with its noise: to column [c] is added [sigmas[c]] times
    the standard normal value [gauss i c]. *)
Definition noisy_row (gauss : nat -> nat -> num) (sigmas : list num)
    (i : nat) (r : list num) : list num :=
  map (fun c => (nth c r NaN + (Fin 0 + nth c sigmas NaN * gauss i c))%num)
    (seq 0 (length sigmas)).

(** *** The default kernel *)

(** An operator applied entry by entry. *)
Definition zip_with (f : num -> num -> num) (a b : list num) : list num :=
  map (fun p => f (fst p) (snd p)) (combine a b).

(** The squared Euclidean distance of two hypotheses given by their
    elements. *)
Definition squared_distance (a b : list num) : num :=
  Num.sum (map Num.square (zip_with Num.sub a b)).

End Spec.

Section FrameDefs.

Context {prior : Type}.

(** The attributes set by the constructor and never assigned again. *)
Definition config (s : ParticleFilter prior) :=
  (column_names s, priors s, d s, n_particles s, inverse_fn s,
   dynamics_fn s, noise_fn s, weight_fn s, resample_proportion s).

(** A computation leaves the observation [f] of the object as it was,
    whether it returns or raises. *)
Definition keeps {A B} (f : ParticleFilter prior -> B) (m : M prior A) : Prop :=
  forall s, f (snd (m s)) = f s.

(** [update] called once per cycle, with the observation and the draws of
    each cycle; a caller that catches an exception goes on with the object
    as the failed call left it. *)
Fixpoint run_cycles (cycles : list (ndarray * Draws))
    (s : ParticleFilter prior) : ParticleFilter prior :=
  match cycles with
  | [] => s
  | (observed, rnd) :: rest => run_cycles rest (snd (update observed rnd s))
  end.

End FrameDefs.

(** Inputs the statements are evaluated at. *)
Module Examples.

Definition weights_1234 : list num :=
  [Fin (1 # 10); Fin (2 # 10); Fin (3 # 10); Fin (4 # 10)].

Definition weights_1000 : list num := [Fin 1; Fin 0; Fin 0; Fin 0].

(** In place of [np.exp] where a statement is evaluated: the statements
    hold for any function. *)
Definition exp_stand_in : num -> num := fun v => v.

(** A filter with two particles and one state dimension.  The sensor
    returns the state itself; the kernel is [10 - d] with [d] the squared
    distance to the observation: positive near it, negative far from it
    (where [update] clips it to zero).  [np.exp] is not called. *)
Definition sensor (P : matrix) : result ndarray := Ok (of_matrix P).

Definition kernel (hyp observed : ndarray) : result ndarray :=
  rbind (np_sub hyp observed) (fun diff =>
    Ok (np_map (fun dist => (Fin 10 - dist)%num)
          (np_sum_last (np_map Num.square diff)))).

Definition pf0 : ParticleFilter unit :=
  __init__ exp_stand_in [tt] sensor 2 None None (Some kernel) (Fin (5 # 100)) None.

(** Draws: offset 1/2, no particle marked for reinitialisation (0.9 is not
    below the resample proportion), and the prior sample [0, 3]. *)
Definition draws : Draws :=
  {| u0 := Fin (1 # 2);
     mask_draw := fun _ => Fin (9 # 10);
     rvs := fun _ _ => [Fin 0; Fin 3] |}.

(** The filter after [init_filter()]: the particles are [[0], [3]]. *)
Definition pf1 : ParticleFilter unit := snd (init_filter None draws pf0).

(** An observation at 0 and one far away, at 100. *)
Definition observed_near : ndarray := mk_nd [1] [Fin 0].

(** The same draws with offset 0. *)
Definition draws_zero_offset : Draws :=
  {| u0 := Fin 0;
     mask_draw := fun _ => Fin (9 # 10);
     rvs := fun _ _ => [Fin 0; Fin 3] |}.

(** Other prior samples, for a masked reinitialisation. *)
Definition fresh_draws : Draws :=
  {| u0 := Fin (1 # 2);
     mask_draw := fun _ => Fin (9 # 10);
     rvs := fun _ _ => [Fin 7; Fin 8] |}.

(** Arrays for the default kernel: two images of 2 by 2 and an
    observation of that shape; two vectors of length 3 and an observation
    of length 3; two scalars and a 0-d observation. *)
Definition images : ndarray :=
  mk_nd [2; 2; 2]
    [Fin 1; Fin 2; Fin 3; Fin 4; Fin 5; Fin 6; Fin 7; Fin 8].
Definition observed_image : ndarray := mk_nd [2; 2] [Fin 1; Fin 1; Fin 1; Fin 1].



(** A filter constructed without [weight_fn]: its kernel is
    [squared_error] with [sigma] 1; initialised like [pf1]. *)
Definition pf_default : ParticleFilter unit :=
  snd (init_filter None draws
         (__init__ exp_stand_in [tt] sensor 2 None None None (Fin (5 # 100))
            None)).


End Examples.

(* ================================================================== *)
(** ** Frame properties of the methods *)

Section Frame.

Context {prior : Type}.

Lemma keeps_ret {A B} (f : ParticleFilter prior -> B) (a : A) :
  keeps f (ret a).
Proof. intros s. reflexivity. Qed.

Lemma keeps_get {A B} (f : ParticleFilter prior -> B)
    (g : ParticleFilter prior -> A) :
  keeps f (get g).
Proof. intros s. reflexivity. Qed.

Lemma keeps_call {A B} (f : ParticleFilter prior -> B) (r : result A) :
  keeps f (call r).
Proof. intros s. reflexivity. Qed.

Lemma keeps_assign {B} (f : ParticleFilter prior -> B)
    (g : ParticleFilter prior -> ParticleFilter prior) :
  (forall s, f (g s) = f s) -> keeps f (assign g).
Proof. intros H s. apply H. Qed.

Lemma keeps_bind {A B C} (f : ParticleFilter prior -> C)
    (m : M prior A) (k : A -> M prior B) :
  keeps f m -> (forall a, keeps f (k a)) -> keeps f (bind m k).
Proof.
  intros Hm Hk s. unfold bind.
  specialize (Hm s).
  destruct (m s) as [[a | e] s']; simpl in *.
  - rewrite Hk. exact Hm.
  - exact Hm.
Qed.

End Frame.

(** Chains of [bind] are taken apart down to the assignments. *)
Ltac keeps_steps :=
  repeat first
    [ apply keeps_ret
    | apply keeps_get
    | apply keeps_call
    | apply keeps_bind; [ | intros ? ]
    | match goal with |- keeps _ (match ?x with _ => _ end) => destruct x end ].

Section FrameUpdate.

Context {prior : Type}.

(** [init_filter] assigns [particles] only. *)
Lemma init_column_keeps {B} (f : ParticleFilter prior -> B) mask rnd i :
  (forall P s, f (set_particles P s) = f s) ->
  keeps f (init_column mask rnd i).
Proof.
  intros Hf. unfold init_column. keeps_steps;
    apply keeps_assign; intros s; apply Hf.
Qed.

Lemma init_columns_keeps {B} (f : ParticleFilter prior -> B) mask rnd
    (ps : list prior) :
  (forall P s, f (set_particles P s) = f s) ->
  forall i, keeps f (init_columns mask rnd i ps).
Proof.
  intros Hf. induction ps as [| p ps IH]; intros i; simpl.
  - apply keeps_ret.
  - apply keeps_bind; [ now apply init_column_keeps | intros _; apply IH ].
Qed.

Lemma init_filter_keeps {B} (f : ParticleFilter prior -> B) mask rnd :
  (forall P s, f (set_particles P s) = f s) ->
  keeps f (init_filter mask rnd).
Proof.
  intros Hf. unfold init_filter. apply keeps_bind; [ apply keeps_get | ].
  intros ps. now apply init_columns_keeps.
Qed.

Lemma update_keeps_config observed rnd :
  keeps (@config prior) (update observed rnd).
Proof.
  unfold update. keeps_steps;
    first [ apply init_columns_keeps; reflexivity
          | apply keeps_assign; intros s; reflexivity ].
Qed.

Lemma config_eq (s s' : ParticleFilter prior) :
  config s' = config s ->
  priors s' = priors s /\
  d s' = d s /\
  n_particles s' = n_particles s /\
  inverse_fn s' = inverse_fn s /\
  dynamics_fn s' = dynamics_fn s /\
  noise_fn s' = noise_fn s /\
  weight_fn s' = weight_fn s /\
  resample_proportion s' = resample_proportion s /\
  column_names s' = column_names s.
Proof.
  unfold config. intros H. inversion H.
  repeat split; reflexivity || assumption.
Qed.

(** C10. [update] assigns only [particles], [weights], [hypotheses],
    [mean_hypothesis], [mean_state] and [resampled_particles]: whatever the
    observation and the random draws, and whether the call returns or
    raises, the attributes set by the constructor ([priors], [d],
    [n_particles], [inverse_fn], [dynamics_fn], [noise_fn], [weight_fn],
    [resample_proportion], [column_names]) are afterwards what they were. *)
Theorem update_frame_config :
  forall (observed : ndarray) (rnd : Draws) (s : ParticleFilter prior),
    let s' := snd (update observed rnd s) in
    priors s' = priors s /\
    d s' = d s /\
    n_particles s' = n_particles s /\
    inverse_fn s' = inverse_fn s /\
    dynamics_fn s' = dynamics_fn s /\
    noise_fn s' = noise_fn s /\
    weight_fn s' = weight_fn s /\
    resample_proportion s' = resample_proportion s /\
    column_names s' = column_names s.
Proof.
  intros observed rnd s s'. apply config_eq.
  apply update_keeps_config.
Qed.

End FrameUpdate.

(* ================================================================== *)
(** ** Arithmetic of the numbers *)

Section NumFacts.

Lemma gtb_Fin_true (x y : Q) :
  (Fin x >? Fin y)%num = true <-> (y < x)%Q.
Proof.
  unfold Num.gtb.
  destruct (x ?= y)%Q eqn:E.
  - split; [ discriminate | ].
    intros H. apply (proj1 (Qgt_alt x y)) in H. congruence.
  - split; [ discriminate | ].
    intros H. apply (proj1 (Qgt_alt x y)) in H. congruence.
  - split; [ intros _ | reflexivity ].
    apply (proj2 (Qgt_alt x y)). exact E.
Qed.

Lemma gtb_Fin_false (x y : Q) :
  (Fin x >? Fin y)%num = false <-> (x <= y)%Q.
Proof.
  destruct (Fin x >? Fin y)%num eqn:E.
  - apply gtb_Fin_true in E. split; [ discriminate | ].
    intros H. exfalso. apply (Qlt_not_le _ _ E H).
  - split; [ intros _ | reflexivity ].
    apply Qnot_lt_le. intros H. apply gtb_Fin_true in H. congruence.
Qed.

Lemma gtb_NaN_r (a : num) : (a >? NaN)%num = false.
Proof. destruct a; reflexivity. Qed.

Lemma inject_nat_pos (n : nat) : n <> 0 -> (0 < inject_Z (Z.of_nat n))%Q.
Proof.
  intros H. change 0%Q with (inject_Z 0). rewrite <- Zlt_Qlt. lia.
Qed.

Lemma inject_nat_nonneg (n : nat) : (0 <= inject_Z (Z.of_nat n))%Q.
Proof.
  change 0%Q with (inject_Z 0). rewrite <- Zle_Qle. lia.
Qed.

Lemma div_of_nat (x : Q) (n : nat) :
  n <> 0 ->
  (Fin x / of_nat n)%num = Fin (Qred (x / inject_Z (Z.of_nat n))).
Proof.
  intros H. unfold Num.div, of_nat, of_Z.
  pose proof (inject_nat_pos n H) as Hp.
  apply Qgt_alt in Hp. rewrite Hp. reflexivity.
Qed.

(** A sample point with a finite offset is the rational (q + i)/n. *)
Lemma upoint_Fin (q : Q) (n i : nat) :
  n <> 0 ->
  exists x, Spec.upoint (Fin q) n i = Fin x /\
            (x == (q + inject_Z (Z.of_nat i)) / inject_Z (Z.of_nat n))%Q.
Proof.
  intros H. unfold Spec.upoint. cbn [Num.add of_nat of_Z].
  rewrite div_of_nat by exact H.
  eexists. split; [ reflexivity | ].
  rewrite Qred_correct, Qred_correct. reflexivity.
Qed.

End NumFacts.

(* ================================================================== *)
(** ** resample *)

Section ResampleFacts.

Lemma nth_skipn_shift {A} (l : list A) (c i : nat) (dflt : A) :
  nth i (skipn c l) dflt = nth (c + i) l dflt.
Proof.
  revert l. induction c as [| c IH]; intros l; simpl.
  - reflexivity.
  - destruct l as [| x l]; simpl.
    + destruct i; reflexivity.
    + apply IH.
Qed.

(** One turn of the [while] loop: [C[j]] is read, and the loop goes on
    from [j + 1] or stops. *)
Lemma advance_unfold (C : list num) (u : num) (j : nat) :
  advance u (skipn j C) j =
  match nth_error C j with
  | None => Raise IndexError
  | Some c => if (u >? c)%num then advance u (skipn (S j) C) (S j) else Ok j
  end.
Proof.
  assert (H : skipn j C = match nth_error C j with
                          | Some c => c :: skipn (S j) C
                          | None => []
                          end).
  { revert C. induction j as [| j IH]; intros [| x C]; simpl; try reflexivity.
    rewrite IH. destruct (nth_error C j); reflexivity. }
  rewrite H. destruct (nth_error C j); reflexivity.
Qed.

Lemma advance_spec (u : num) (rest : list num) :
  forall j j',
    advance u rest j = Ok j' <->
    j <= j' /\ j' < j + length rest /\
    (forall k, j <= k < j' -> (u >? nth (k - j) rest NaN)%num = true) /\
    (u >? nth (j' - j) rest NaN)%num = false.
Proof.
  induction rest as [| c rest IH]; intros j j'; simpl.
  - split; [ discriminate | ]. intros (H1 & H2 & _). lia.
  - destruct (u >? c)%num eqn:E.
    + rewrite IH. split.
      * intros (H1 & H2 & H3 & H4). repeat split; try lia.
        -- intros k Hk. destruct (k - j) as [| m] eqn:Ek; [ exact E | ].
           replace m with (k - S j) by lia. apply H3. lia.
        -- replace (j' - j) with (S (j' - S j)) by lia. exact H4.
      * intros (H1 & H2 & H3 & H4).
        assert (Hne : j' <> j).
        { intros ->. rewrite Nat.sub_diag in H4. simpl in H4. congruence. }
        repeat split; try lia.
        -- intros k Hk. specialize (H3 k).
           replace (k - j) with (S (k - S j)) in H3 by lia. apply H3. lia.
        -- replace (j' - j) with (S (j' - S j)) in H4 by lia. exact H4.
    + split.
      * intros H. inversion H; subst j'. repeat split; try lia.
        rewrite Nat.sub_diag. exact E.
      * intros (H1 & H2 & H3 & H4).
        destruct (Nat.eq_dec j' j) as [-> | Hne]; [ reflexivity | ].
        specialize (H3 j). rewrite Nat.sub_diag in H3. simpl in H3.
        rewrite H3 in E by lia. discriminate.
Qed.

Lemma last_app_nonempty {A} (l1 l2 : list A) (dflt : A) :
  l2 <> [] -> last (l1 ++ l2) dflt = last l2 dflt.
Proof.
  intros H. induction l1 as [| x l1 IH]; [ reflexivity | ].
  simpl. rewrite IH. destruct (l1 ++ l2) eqn:E; [ | reflexivity ].
  apply app_eq_nil in E. destruct E. congruence.
Qed.

(** The loop stops inside [rest] as soon as its last entry stops it. *)
Lemma advance_total (u : num) (rest : list num) :
  forall j,
    rest <> [] -> (u >? last rest NaN)%num = false ->
    exists j', advance u rest j = Ok j' /\ j <= j' < j + length rest.
Proof.
  induction rest as [| c rest IH]; intros j Hne Hlast; [ congruence | ].
  simpl. destruct (u >? c)%num eqn:E.
  - destruct rest as [| c' rest'].
    + simpl in Hlast. congruence.
    + destruct (IH (S j)) as (j' & Hj' & Hb); [ discriminate | exact Hlast | ].
      exists j'. split; [ exact Hj' | simpl in *; lia ].
  - exists j. split; [ reflexivity | simpl; lia ].
Qed.

Lemma resample_loop_spec (C : list num) (us : list num) :
  forall j acc out,
    resample_loop C us j acc = Ok out <->
    exists js,
      length js = length us /\
      out = acc ++ map (fun j => (Z.of_nat j - 1)%Z) js /\
      forall i, i < length us ->
        advance (nth i us NaN) (skipn (nth i (j :: js) 0) C) (nth i (j :: js) 0)
        = Ok (nth i js 0).
Proof.
  induction us as [| u us IH]; intros j acc out; simpl.
  - split.
    + intros H. inversion H; subst. exists []. simpl.
      rewrite app_nil_r. repeat split. intros i Hi. lia.
    + intros (js & Hl & -> & _). destruct js; [ | discriminate ].
      simpl. rewrite app_nil_r. reflexivity.
  - destruct (advance u (skipn j C) j) as [j1 | e] eqn:E.
    + rewrite IH. split.
      * intros (js & Hl & -> & Hs). exists (j1 :: js). simpl.
        split; [ now rewrite Hl | ]. split; [ now rewrite <- app_assoc | ].
        intros [| i] Hi; [ exact E | ]. apply Hs. lia.
      * intros (js & Hl & -> & Hs). destruct js as [| j0 js]; [ discriminate | ].
        pose proof (Hs 0 ltac:(lia)) as H0. simpl in H0.
        rewrite E in H0. inversion H0; subst j0.
        exists js. simpl in Hl. split; [ lia | ].
        split; [ simpl; now rewrite <- app_assoc | ].
        intros i Hi. apply (Hs (S i)). lia.
    + split; [ discriminate | ].
      intros (js & Hl & _ & Hs).
      pose proof (Hs 0 ltac:(lia)) as H0. simpl in H0. congruence.
Qed.

Lemma resample_loop_total (C : list num) (us : list num) :
  forall j acc,
    j < length C ->
    (forall u, In u us -> (u >? last C NaN)%num = false) ->
    exists out, resample_loop C us j acc = Ok out.
Proof.
  induction us as [| u us IH]; intros j acc Hj Hlast; simpl.
  - eexists; reflexivity.
  - destruct (advance_total u (skipn j C) j) as (j' & Hj' & Hb).
    + intros H. apply (f_equal (@length _)) in H.
      rewrite length_skipn in H. simpl in H. lia.
    + assert (Hl : last (firstn j C ++ skipn j C) NaN = last (skipn j C) NaN).
      { apply last_app_nonempty. intros H. apply (f_equal (@length _)) in H.
        rewrite length_skipn in H. simpl in H. lia. }
      rewrite firstn_skipn in Hl. rewrite <- Hl.
      apply Hlast. now left.
    + rewrite Hj'. apply IH.
      * rewrite length_skipn in Hb. lia.
      * intros u' Hu'. apply Hlast. now right.
Qed.

Lemma length_cumulative (w : ndarray) (n : nat) :
  length (cumulative w n) = S n.
Proof. unfold cumulative. simpl. now rewrite length_map, length_seq. Qed.

Lemma nth_cumulative (w : list num) (k : nat) :
  k <= length w ->
  nth k (cumulative (vec w) (length w)) NaN = Spec.Ctab w k.
Proof.
  intros Hk. unfold cumulative, Spec.Ctab. destruct k as [| i]; [ reflexivity | ].
  cbn [nth].
  rewrite (nth_indep _ NaN (Num.sum (take_first (0 + 1) (vec w))))
    by (rewrite length_map, length_seq; lia).
  rewrite (map_nth (fun i => Num.sum (take_first (i + 1) (vec w)))).
  rewrite seq_nth by lia.
  unfold take_first, vec. cbn [shape data tl size_of fold_right].
  f_equal. f_equal. lia.
Qed.

Lemma nth_sample_points (u0 : num) (n i : nat) :
  i < n -> nth i (sample_points u0 n) NaN = Spec.upoint u0 n i.
Proof.
  intros Hi. unfold sample_points, Spec.upoint.
  rewrite (nth_indep _ NaN ((u0 + of_nat 0) / of_nat n)%num)
    by (rewrite length_map, length_seq; lia).
  rewrite (map_nth (fun i => ((u0 + of_nat i) / of_nat n)%num)).
  now rewrite seq_nth by lia.
Qed.

Lemma length_sample_points (u0 : num) (n : nat) :
  length (sample_points u0 n) = n.
Proof. unfold sample_points. now rewrite length_map, length_seq. Qed.

Lemma resample_vec (w : list num) (u0 : num) :
  resample (vec w) u0 =
  resample_loop (cumulative (vec w) (length w))
    (sample_points u0 (length w)) 0 [].
Proof. reflexivity. Qed.

(** The loop of the program moves the cursor as the specification says. *)
Lemma advance_stops (w : list num) (u : num) (j j' : nat) :
  advance u (skipn j (cumulative (vec w) (length w))) j = Ok j' <->
  Spec.stops w u j j'.
Proof.
  rewrite advance_spec, length_skipn, length_cumulative. unfold Spec.stops.
  split.
  - intros (H1 & H2 & H3 & H4).
    assert (Hj' : j' <= length w) by lia.
    repeat split; try assumption.
    + intros k Hk. specialize (H3 k Hk).
      rewrite nth_skipn_shift in H3.
      replace (j + (k - j)) with k in H3 by lia.
      now rewrite nth_cumulative in H3 by lia.
    + rewrite nth_skipn_shift in H4.
      replace (j + (j' - j)) with j' in H4 by lia.
      now rewrite nth_cumulative in H4 by lia.
  - intros (H1 & H2 & H3 & H4).
    repeat split; try lia.
    + intros k Hk. rewrite nth_skipn_shift.
      replace (j + (k - j)) with k by lia.
      rewrite nth_cumulative by lia. now apply H3.
    + rewrite nth_skipn_shift.
      replace (j + (j' - j)) with j' by lia.
      now rewrite nth_cumulative by lia.
Qed.

Lemma resample_iff_systematic (w : list num) (u0 : num) (indices : list Z) :
  resample (vec w) u0 = Ok indices <-> Spec.systematic w u0 indices.
Proof.
  rewrite resample_vec, resample_loop_spec. unfold Spec.systematic.
  rewrite length_sample_points.
  split; intros (js & Hl & Ho & Hs); exists js;
    (split; [ exact Hl | ]); (split; [ exact Ho | ]); intros i Hi;
    specialize (Hs i Hi).
  - rewrite nth_sample_points in Hs by exact Hi. now apply advance_stops.
  - rewrite nth_sample_points by exact Hi. now apply advance_stops.
Qed.

End ResampleFacts.

Section ResampleClaims.

Lemma nth_pred_length_last {A} (l : list A) (dflt : A) :
  nth (length l - 1) l dflt = last l dflt.
Proof.
  induction l as [| x l IH]; [ reflexivity | ].
  destruct l as [| y l]; [ reflexivity | ].
  change (last (x :: y :: l) dflt) with (last (y :: l) dflt).
  rewrite <- IH. simpl. now rewrite Nat.sub_0_r.
Qed.

Lemma last_cumulative (w : list num) :
  last (cumulative (vec w) (length w)) NaN = Num.sum w.
Proof.
  rewrite <- nth_pred_length_last, length_cumulative.
  replace (S (length w) - 1) with (length w) by lia.
  rewrite nth_cumulative by lia. unfold Spec.Ctab. now rewrite firstn_all.
Qed.

Lemma upoint_le_one (q : Q) (n i : nat) (x : Q) :
  (q < 1)%Q -> i < n ->
  (x == (q + inject_Z (Z.of_nat i)) / inject_Z (Z.of_nat n))%Q ->
  (x <= 1)%Q.
Proof.
  intros Hq Hi Hx. rewrite Hx.
  apply Qle_shift_div_r; [ apply inject_nat_pos; lia | ].
  assert (H : (inject_Z (Z.of_nat i) + 1 <= inject_Z (Z.of_nat n))%Q).
  { change 1%Q with (inject_Z 1). rewrite <- inject_Z_plus, <- Zle_Qle. lia. }
  lra.
Qed.

(** On normalized weights and an offset of [0,1) the cursor never leaves
    the table: [resample] returns. *)
Lemma resample_total_normalized (w : list num) (u0 : num) :
  Spec.normalized w -> Spec.in_unit_interval u0 ->
  exists indices, resample (vec w) u0 = Ok indices.
Proof.
  intros [_ Hsum] (q & -> & Hq0 & Hq1).
  rewrite resample_vec. apply resample_loop_total.
  - rewrite length_cumulative. lia.
  - intros u Hu. rewrite last_cumulative.
    unfold sample_points in Hu. apply in_map_iff in Hu.
    destruct Hu as (i & <- & Hi). apply in_seq in Hi.
    destruct (upoint_Fin q (length w) i ltac:(lia)) as (x & Hx & Hxv).
    unfold Spec.upoint in Hx. rewrite Hx.
    destruct (Num.sum w) as [s | | |]; simpl in Hsum; try contradiction.
    apply gtb_Fin_false. rewrite Hsum.
    apply (upoint_le_one q (length w) i); [ exact Hq1 | lia | exact Hxv ].
Qed.

(** With offset 0 the first sample point is 0, which is not above C[0]. *)
Lemma first_point_not_above (w : list num) (q : Q) :
  w <> [] -> (q == 0)%Q ->
  (Spec.upoint (Fin q) (length w) 0 >? Spec.Ctab w 0)%num = false.
Proof.
  intros Hw Hq.
  assert (Hn : length w <> 0) by (destruct w; [ congruence | discriminate ]).
  destruct (upoint_Fin q (length w) 0 Hn) as (x & -> & Hx).
  unfold Spec.Ctab. simpl. apply gtb_Fin_false.
  rewrite Hx, Hq. simpl. unfold Qdiv. rewrite Qplus_0_l, Qmult_0_l.
  apply Qle_refl.
Qed.

Lemma resample_zero_offset_head (w : list num) (q : Q) (indices : list Z) :
  w <> [] -> (q == 0)%Q ->
  resample (vec w) (Fin q) = Ok indices ->
  exists rest, indices = (-1)%Z :: rest.
Proof.
  intros Hw Hq H. apply resample_iff_systematic in H.
  destruct H as (js & Hl & -> & Hs).
  destruct w as [| x w]; [ congruence | ].
  destruct js as [| j js]; [ discriminate | ].
  specialize (Hs 0 ltac:(simpl; lia)). simpl nth in Hs.
  destruct Hs as (_ & _ & Hpass & _).
  destruct j as [| j].
  - exists (map (fun j => (Z.of_nat j - 1)%Z) js). reflexivity.
  - specialize (Hpass 0 ltac:(lia)).
    rewrite first_point_not_above in Hpass by (discriminate || exact Hq).
    discriminate.
Qed.

Lemma norm_index_minus_one (n : nat) :
  n <> 0 -> norm_index n (-1) = Ok (n - 1).
Proof.
  intros Hn. unfold norm_index.
  replace ((-1 <? - Z.of_nat n) || (Z.of_nat n <=? -1))%Z with false.
  - change (-1 <? 0)%Z with true. cbv iota. f_equal. lia.
  - symmetry. apply orb_false_iff. split; [ apply Z.ltb_ge | apply Z.leb_gt ]; lia.
Qed.

Lemma take_rows_minus_one (P : matrix) (rest : list Z) (P' : matrix) :
  nrows P <> 0 ->
  take_rows P ((-1)%Z :: rest) = Ok P' ->
  nth_error (rows P') 0 = Some (last (rows P) []).
Proof.
  intros Hn H. unfold take_rows in H. cbn [gather] in H.
  rewrite norm_index_minus_one in H by exact Hn. cbn [rbind] in H.
  destruct (gather (rows P) rest) as [rws | e]; simpl in H; [ | discriminate ].
  inversion H; subst P'. simpl. now rewrite nth_pred_length_last.
Qed.

End ResampleClaims.

Section ResampleTheorems.

Lemma normalized_weights_1234 : Spec.normalized Examples.weights_1234.
Proof.
  split.
  - intros x Hx. simpl in Hx.
    destruct Hx as [<- | [<- | [<- | [<- | []]]]];
      eexists; (split; [ reflexivity | discriminate ]).
  - vm_compute. reflexivity.
Defined.

Lemma in_unit_interval_005 : Spec.in_unit_interval (Fin (5 # 100)).
Proof.
  exists (5 # 100)%Q. split; [ reflexivity | ]. split; [ discriminate | reflexivity ].
Defined.

(** C3. [resample] is systematic resampling.  For normalized weights and
    an offset of [0,1) it returns one index per weight, and what it returns
    is what the specification describes: with C[0] = 0 and C[k] the sum of
    the first k weights, and the sample points u_i = (u0 + i)/N, a cursor
    that is kept from one sample point to the next goes past every position
    where u_i > C[j] and stops at the first one where that fails, and the
    index appended is the cursor minus one.  Whatever the weights and the
    offset, the lists [resample] can return are exactly those.  For the
    weights [0.1, 0.2, 0.3, 0.4] and u0 = 0.05 it returns [0, 1, 2, 3]. *)
Theorem resample_is_systematic :
  (forall (w : list num) (u0 : num),
      Spec.normalized w -> Spec.in_unit_interval u0 ->
      exists indices,
        resample (vec w) u0 = Ok indices /\
        length indices = length w /\
        Spec.systematic w u0 indices) /\
  (forall (w : list num) (u0 : num) (indices : list Z),
      resample (vec w) u0 = Ok indices <-> Spec.systematic w u0 indices) /\
  resample (vec Examples.weights_1234) (Fin (5 # 100)) = Ok [0; 1; 2; 3]%Z.
Proof.
  split; [ | split ].
  - intros w u0 Hw Hu.
    destruct (resample_total_normalized w u0 Hw Hu) as (indices & H).
    exists indices. split; [ exact H | ].
    apply resample_iff_systematic in H. split; [ | exact H ].
    destruct H as (js & Hl & -> & _). now rewrite length_map.
  - intros w u0 indices. apply resample_iff_systematic.
  - vm_compute. reflexivity.
Qed.

Lemma resample_is_systematic_witness :
  Spec.normalized Examples.weights_1234 /\
  Spec.in_unit_interval (Fin (5 # 100)) /\
  exists indices,
    resample (vec Examples.weights_1234) (Fin (5 # 100)) = Ok indices /\
    length indices = length Examples.weights_1234 /\
    Spec.systematic Examples.weights_1234 (Fin (5 # 100)) indices.
Proof.
  split; [ exact normalized_weights_1234 | ].
  split; [ exact in_unit_interval_005 | ].
  exact (proj1 resample_is_systematic Examples.weights_1234 (Fin (5 # 100))
           normalized_weights_1234 in_unit_interval_005).
Defined.

Lemma upoint_pos (q : Q) (n i : nat) (x : Q) :
  (0 < q)%Q -> n <> 0 ->
  (x == (q + inject_Z (Z.of_nat i)) / inject_Z (Z.of_nat n))%Q ->
  (0 < x)%Q.
Proof.
  intros Hq Hn Hx. rewrite Hx.
  apply Qlt_shift_div_l; [ now apply inject_nat_pos | ].
  pose proof (inject_nat_nonneg i). lra.
Qed.

(** With all the weight on particle 0 and an offset strictly between 0 and
    1, particle 0 is selected four times. *)
Lemma resample_concentrated_interior (q : Q) :
  (0 < q)%Q -> (q < 1)%Q ->
  resample (vec Examples.weights_1000) (Fin q) = Ok [0; 0; 0; 0]%Z.
Proof.
  intros Hq0 Hq1. apply resample_iff_systematic.
  exists [1; 1; 1; 1]. split; [ reflexivity | ]. split; [ reflexivity | ].
  intros i Hi. change (length Examples.weights_1000) with 4 in *.
  destruct (upoint_Fin q 4 i ltac:(lia)) as (x & Hx & Hxv). rewrite Hx.
  assert (Hle : (x <= 1)%Q) by (apply (upoint_le_one q 4 i); assumption).
  assert (Hpos : (0 < x)%Q) by (apply (upoint_pos q 4 i); (assumption || lia)).
  assert (H1 : (Fin x >? Spec.Ctab Examples.weights_1000 1)%num = false).
  { change (Spec.Ctab Examples.weights_1000 1) with (Fin 1).
    now apply gtb_Fin_false. }
  assert (H0 : (Fin x >? Spec.Ctab Examples.weights_1000 0)%num = true).
  { change (Spec.Ctab Examples.weights_1000 0) with (Fin 0).
    now apply gtb_Fin_true. }
  destruct i as [| i].
  - simpl nth. split; [ lia | ]. split; [ simpl; lia | ].
    split; [ | exact H1 ].
    intros k Hk. replace k with 0 by lia. exact H0.
  - replace (nth (S i) (0 :: [1; 1; 1; 1]) 0) with 1
      by (do 3 (destruct i as [| i]; [ reflexivity | ]); simpl in Hi; lia).
    replace (nth (S i) [1; 1; 1; 1] 0) with 1
      by (do 3 (destruct i as [| i]; [ reflexivity | ]); simpl in Hi; lia).
    split; [ lia | ]. split; [ simpl; lia | ].
    split; [ | exact H1 ].
    intros k Hk. lia.
Qed.

(** C4, at the offset where it fails.  With the weights [1, 0, 0, 0] and
    u0 = 0, [resample] returns (the loop is bounded by the length of the
    cumulative table), but its first index is -1: particle 0 is selected
    three times, not four. *)
Theorem resample_concentrated_zero_offset :
  resample (vec Examples.weights_1000) (Fin 0) = Ok [-1; 0; 0; 0]%Z.
Proof. vm_compute. reflexivity. Qed.

(** C9. With an offset equal to 0 the first sample point is 0, which is
    not above C[0] = 0: the cursor stays at 0 and -1 is appended.  So, for
    every non-empty weight vector, a list that [resample] returns for
    u0 = 0 has -1 in position 0, and for normalized weights it does return
    one.  Used as a row index, -1 selects the last row of the particle
    array. *)
Theorem resample_zero_offset_first_index :
  forall (w : list num) (u0 : num),
    w <> [] -> (u0 =~ Fin 0)%num ->
    (forall indices,
        resample (vec w) u0 = Ok indices -> nth_error indices 0 = Some (-1)%Z) /\
    (Spec.normalized w ->
     exists rest, resample (vec w) u0 = Ok ((-1)%Z :: rest)) /\
    (forall (P P' : matrix) (rest : list Z),
        nrows P <> 0 ->
        take_rows P ((-1)%Z :: rest) = Ok P' ->
        nth_error (rows P') 0 = Some (last (rows P) [])).
Proof.
  intros w u0 Hw Hu.
  destruct u0 as [q | | |]; simpl in Hu; try contradiction.
  split; [ | split ].
  - intros indices H.
    destruct (resample_zero_offset_head w q indices Hw Hu H) as (rest & ->).
    reflexivity.
  - intros Hn.
    destruct (resample_total_normalized w (Fin q) Hn) as (indices & H).
    { exists q. split; [ reflexivity | ]. rewrite Hu. split; [ apply Qle_refl | reflexivity ]. }
    destruct (resample_zero_offset_head w q indices Hw Hu H) as (rest & ->).
    exists rest. exact H.
  - intros P P' rest. apply take_rows_minus_one.
Qed.

Lemma resample_zero_offset_first_index_witness :
  Examples.weights_1234 <> [] /\ (Fin 0 =~ Fin 0)%num /\
  exists rest,
    resample (vec Examples.weights_1234) (Fin 0) = Ok ((-1)%Z :: rest).
Proof.
  assert (Hne : Examples.weights_1234 <> []) by discriminate.
  assert (Hz : (Fin 0 =~ Fin 0)%num) by reflexivity.
  split; [ exact Hne | ]. split; [ exact Hz | ].
  exact (proj1 (proj2 (resample_zero_offset_first_index
                         Examples.weights_1234 (Fin 0) Hne Hz))
           normalized_weights_1234).
Defined.

End ResampleTheorems.

(* ================================================================== *)
(** ** init_filter *)

Section InitFilterFacts.

Context {prior : Type}.

Lemma length_set_nth (i : nat) (v : num) (r : list num) :
  length (set_nth i v r) = length r.
Proof.
  revert i. induction r as [| x r IH]; intros i; [ reflexivity | ].
  destruct i; simpl; [ reflexivity | now rewrite IH ].
Qed.

Lemma nth_set_nth (i : nat) (v : num) (r : list num) (c : nat) :
  i < length r ->
  nth c (set_nth i v r) NaN = if c =? i then v else nth c r NaN.
Proof.
  revert i c. induction r as [| x r IH]; intros i c Hi; simpl in Hi; [ lia | ].
  destruct i as [| i]; destruct c as [| c]; simpl; try reflexivity.
  apply IH. lia.
Qed.

(** Rows the mask does not mark are the rows that were there, whatever
    the values given. *)
Lemma put_masked_false (i : nat) (mask : list bool) :
  forall rws sel k,
    nth_error mask k = Some false ->
    nth_error (put_masked mask i rws sel) k = nth_error rws k.
Proof.
  induction mask as [| b mask IH]; intros rws sel k Hk.
  - destruct k; discriminate.
  - destruct rws as [| r rws]; [ now destruct b | ].
    destruct b.
    + destruct k as [| k]; [ discriminate | ].
      destruct sel as [| v sel]; [ reflexivity | ].
      simpl. apply IH. exact Hk.
    + destruct k as [| k]; [ reflexivity | ].
      simpl. apply IH. exact Hk.
Qed.

Lemma length_put_masked (i : nat) (mask : list bool) :
  forall rws sel, length (put_masked mask i rws sel) = length rws.
Proof.
  induction mask as [| b mask IH]; intros rws sel; [ reflexivity | ].
  destruct rws as [| r rws]; [ now destruct b | ].
  destruct b; [ destruct sel as [| v sel] | ]; simpl; try reflexivity;
    now rewrite IH.
Qed.

Lemma Forall_put_masked (k i : nat) (mask : list bool) :
  forall rws sel,
    Forall (fun r => length r = k) rws ->
    Forall (fun r => length r = k) (put_masked mask i rws sel).
Proof.
  induction mask as [| b mask IH]; intros rws sel H; [ exact H | ].
  destruct rws as [| r rws]; [ now destruct b | ].
  pose proof (Forall_inv H) as Hr. pose proof (Forall_inv_tail H) as Hrws.
  destruct b; [ destruct sel as [| v sel] | ]; simpl.
  - exact H.
  - constructor; [ now rewrite length_set_nth | now apply IH ].
  - constructor; [ exact Hr | now apply IH ].
Qed.

Lemma length_select (mask : list bool) :
  forall vals, length mask = length vals ->
    length (select mask vals) = count_true mask.
Proof.
  unfold count_true.
  induction mask as [| b mask IH]; intros vals H; [ reflexivity | ].
  destruct vals as [| v vals]; [ discriminate | ].
  simpl in H. destruct b; simpl; rewrite IH by lia; reflexivity.
Qed.

(** With the values picked by the same mask, a marked row receives the
    value of its own position. *)
Lemma put_masked_select (i : nat) (mask : list bool) :
  forall rws vals k,
    length mask = length rws -> length mask = length vals ->
    k < length rws ->
    nth k (put_masked mask i rws (select mask vals)) [] =
    if nth k mask false then set_nth i (nth k vals NaN) (nth k rws [])
    else nth k rws [].
Proof.
  induction mask as [| b mask IH]; intros rws vals k Hr Hv Hk.
  - destruct rws; [ simpl in Hk; lia | discriminate ].
  - destruct rws as [| r rws]; [ discriminate | ].
    destruct vals as [| v vals]; [ discriminate | ].
    simpl in Hr, Hv, Hk.
    destruct b; destruct k as [| k]; simpl; try reflexivity;
      apply IH; lia.
Qed.

Lemma nth_set_rows (i : nat) (rws : list (list num)) (vals : list num) (k : nat) :
  length vals = length rws -> k < length rws ->
  nth k (map (fun rv => set_nth i (snd rv) (fst rv)) (combine rws vals)) [] =
  set_nth i (nth k vals NaN) (nth k rws []).
Proof.
  intros Hv Hk.
  rewrite (nth_indep _ [] ((fun rv => set_nth i (snd rv) (fst rv)) ([], NaN)))
    by (rewrite length_map, length_combine; lia).
  rewrite (map_nth (fun rv => set_nth i (snd rv) (fst rv))).
  rewrite combine_nth by lia. reflexivity.
Qed.

Lemma Forall_set_rows (k i : nat) (rws : list (list num)) (vals : list num) :
  Forall (fun r => length r = k) rws ->
  Forall (fun r => length r = k)
    (map (fun rv => set_nth i (snd rv) (fst rv)) (combine rws vals)).
Proof.
  intros H. revert vals. induction H as [| r rws Hr Hrws IH]; intros vals.
  - constructor.
  - destruct vals as [| v vals]; [ constructor | ].
    simpl. constructor; [ now rewrite length_set_nth | apply IH ].
Qed.

(** One column assigned: the call returns, the array keeps its shape, and
    the entry of column [i] is replaced in the rows that are redrawn. *)
Lemma init_column_spec (mask : option (list bool)) (rnd : Draws) (i N D : nat)
    (s : ParticleFilter prior) :
  has_shape N D (particles s) -> n_particles s = N ->
  match mask with None => True | Some m => length m = N end ->
  i < D -> length (rvs rnd i N) = N ->
  exists P',
    init_column mask rnd i s = (Ok tt, set_particles P' s) /\
    has_shape N D P' /\
    forall r c, r < N ->
      nth c (nth r (rows P') []) NaN =
      if Spec.redrawn mask r && (c =? i) then nth r (rvs rnd i N) NaN
      else nth c (nth r (rows (particles s)) []) NaN.
Proof.
  intros (Hn & Hd & Hrows) HN Hm Hi Hv.
  unfold init_column, bind, get, call, assign. rewrite HN.
  assert (Hlen : forall r, r < N -> length (nth r (rows (particles s)) []) = D).
  { intros r Hr. rewrite Forall_forall in Hrows. apply Hrows.
    apply nth_In. unfold nrows in Hn. lia. }
  destruct mask as [m |].
  - unfold bool_index. rewrite Hm, Hv, Nat.eqb_refl.
    unfold set_column_masked. rewrite Hm, Hn, Nat.eqb_refl, Hd.
    replace (D <=? i) with false by (symmetry; apply Nat.leb_gt; lia).
    cbn [negb orb]. rewrite length_select by lia. rewrite Nat.eqb_refl.
    eexists. split; [ reflexivity | ]. split.
    + split; [ | split ]; cbn [rows ncols nrows].
      * unfold nrows. cbn [rows]. rewrite length_put_masked. exact Hn.
      * reflexivity.
      * now apply Forall_put_masked.
    + intros r c Hr. cbn [rows Spec.redrawn].
      unfold nrows in Hn.
      rewrite put_masked_select by lia.
      destruct (nth r m false); cbn [andb]; [ | reflexivity ].
      rewrite nth_set_nth by (rewrite Hlen; lia). reflexivity.
  - unfold set_column. rewrite Hd, Hv, Hn, Nat.eqb_refl.
    replace (D <=? i) with false by (symmetry; apply Nat.leb_gt; lia).
    eexists. split; [ reflexivity | ]. split.
    + split; [ | split ]; cbn [rows ncols].
      * unfold nrows in *. cbn [rows]. rewrite length_map, length_combine. lia.
      * reflexivity.
      * now apply Forall_set_rows.
    + intros r c Hr. cbn [rows Spec.redrawn andb]. unfold nrows in Hn.
      rewrite nth_set_rows by lia.
      rewrite nth_set_nth by (rewrite Hlen; lia). reflexivity.
Qed.

Lemma init_columns_spec (mask : option (list bool)) (rnd : Draws) (N D : nat)
    (ps : list prior) :
  forall i (s : ParticleFilter prior),
    has_shape N D (particles s) -> n_particles s = N ->
    match mask with None => True | Some m => length m = N end ->
    i + length ps <= D ->
    (forall c, c < D -> length (rvs rnd c N) = N) ->
    exists P',
      init_columns mask rnd i ps s = (Ok tt, set_particles P' s) /\
      has_shape N D P' /\
      forall r c, r < N ->
        nth c (nth r (rows P') []) NaN =
        if Spec.redrawn mask r && (i <=? c) && (c <? i + length ps)
        then nth r (rvs rnd c N) NaN
        else nth c (nth r (rows (particles s)) []) NaN.
Proof.
  induction ps as [| p ps IH]; intros i s Hs HN Hm Hi Hv.
  - exists (particles s). split; [ | split ].
    + simpl. unfold ret. destruct s; reflexivity.
    + exact Hs.
    + intros r c Hr. simpl length.
      destruct (Spec.redrawn mask r); cbn [andb]; [ | reflexivity ].
      replace ((i <=? c) && (c <? i + 0)) with false; [ reflexivity | ].
      symmetry. destruct (i <=? c) eqn:E; [ | reflexivity ].
      apply Nat.leb_le in E. apply Nat.ltb_ge. lia.
  - simpl length in Hi.
    destruct (init_column_spec mask rnd i N D s Hs HN Hm ltac:(lia)
                (Hv i ltac:(lia))) as (P1 & E1 & Hs1 & Hc1).
    destruct (IH (S i) (set_particles P1 s) Hs1 HN Hm ltac:(lia) Hv)
      as (P2 & E2 & Hs2 & Hc2).
    exists P2. split; [ | split ].
    + cbn [init_columns]. unfold bind at 1. rewrite E1, E2. reflexivity.
    + exact Hs2.
    + intros r c Hr. rewrite Hc2 by exact Hr. cbn [particles set_particles].
      rewrite Hc1 by exact Hr. simpl length.
      destruct (Spec.redrawn mask r); cbn [andb]; [ | reflexivity ].
      destruct (Nat.eq_dec c i) as [-> | Hne].
      * rewrite Nat.eqb_refl.
        replace (S i <=? i) with false by (symmetry; apply Nat.leb_gt; lia).
        rewrite Nat.leb_refl.
        replace (i <? i + S (length ps)) with true
          by (symmetry; apply Nat.ltb_lt; lia).
        reflexivity.
      * replace (c =? i) with false by (symmetry; apply Nat.eqb_neq; lia).
        replace (c <? S i + length ps) with (c <? i + S (length ps))
          by (f_equal; lia).
        destruct (c <? i + S (length ps)); [ | now rewrite !andb_false_r ].
        rewrite !andb_true_r.
        replace (S i <=? c) with (i <=? c); [ reflexivity | ].
        destruct (i <=? c) eqn:E.
        -- apply Nat.leb_le in E. symmetry. apply Nat.leb_le. lia.
        -- apply Nat.leb_gt in E. symmetry. apply Nat.leb_gt. lia.
Qed.

End InitFilterFacts.

Section InitFilterClaims.

Context {prior : Type}.

Lemma init_column_frame_rows (m : list bool) (rnd : Draws) (i : nat)
    (s : ParticleFilter prior) (k : nat) :
  nth_error m k = Some false ->
  nth_error (rows (particles (snd (init_column (Some m) rnd i s)))) k =
  nth_error (rows (particles s)) k.
Proof.
  intros Hk. unfold init_column, bind, get, call, assign.
  destruct (bool_index m (rvs rnd i (n_particles s))) as [sel | e];
    [ | reflexivity ].
  unfold set_column_masked.
  destruct (negb (length m =? nrows (particles s)) || (ncols (particles s) <=? i));
    [ reflexivity | ].
  destruct (length sel =? count_true m).
  - cbn [snd particles set_particles rows]. now apply put_masked_false.
  - destruct sel as [| v [| v' sel]]; try reflexivity.
    cbn [snd particles set_particles rows]. now apply put_masked_false.
Qed.

Lemma init_columns_frame_rows (m : list bool) (rnd : Draws) (ps : list prior)
    (k : nat) :
  nth_error m k = Some false ->
  forall i (s : ParticleFilter prior),
    nth_error (rows (particles (snd (init_columns (Some m) rnd i ps s)))) k =
    nth_error (rows (particles s)) k.
Proof.
  intros Hk. induction ps as [| p ps IH]; intros i s; [ reflexivity | ].
  cbn [init_columns]. unfold bind at 1.
  pose proof (init_column_frame_rows m rnd i s k Hk) as H1.
  destruct (init_column (Some m) rnd i s) as [[[] | e] s1]; simpl in H1.
  - rewrite IH. exact H1.
  - exact H1.
Qed.

(** Rows outside the mask are untouched by [init_filter(mask)], whether it
    returns or raises. *)
Lemma init_filter_frame_rows (m : list bool) (rnd : Draws)
    (s : ParticleFilter prior) (k : nat) :
  nth_error m k = Some false ->
  nth_error (rows (particles (snd (init_filter (Some m) rnd s)))) k =
  nth_error (rows (particles s)) k.
Proof.
  intros Hk. unfold init_filter, bind, get.
  now apply init_columns_frame_rows.
Qed.

Lemma nth_map_seq {A} (f : nat -> A) (n i : nat) (dflt : A) :
  i < n -> nth i (map f (seq 0 n)) dflt = f i.
Proof.
  intros Hi. rewrite (nth_indep _ dflt (f 0))
    by (rewrite length_map, length_seq; lia).
  rewrite (map_nth f). now rewrite seq_nth by lia.
Qed.

Lemma init_filter_rows (mask : option (list bool)) (rnd : Draws) (N D : nat)
    (s : ParticleFilter prior) :
  has_shape N D (particles s) -> n_particles s = N ->
  length (priors s) = D ->
  match mask with None => True | Some m => length m = N end ->
  (forall c, c < D -> length (rvs rnd c N) = N) ->
  fst (init_filter mask rnd s) = Ok tt /\
  has_shape N D (particles (snd (init_filter mask rnd s))) /\
  forall k, k < N ->
    nth_error (rows (particles (snd (init_filter mask rnd s)))) k =
    Some (if Spec.redrawn mask k then Spec.drawn_row rnd N D k
          else nth k (rows (particles s)) []).
Proof.
  intros Hs HN HD Hm Hv.
  destruct (init_columns_spec mask rnd N D (priors s) 0 s Hs HN Hm
              ltac:(lia) Hv) as (P' & E & Hs' & Hc).
  unfold init_filter, bind, get. rewrite E. cbn [fst snd particles set_particles].
  split; [ reflexivity | ]. split; [ exact Hs' | ].
  intros k Hk.
  destruct Hs' as (Hn' & Hd' & Hr'). destruct Hs as (Hn & Hd & Hr).
  unfold nrows in *.
  rewrite (nth_error_nth' _ [] (n := k)) by lia. f_equal.
  assert (Hlen' : length (nth k (rows P') []) = D).
  { rewrite Forall_forall in Hr'. apply Hr'. apply nth_In. lia. }
  assert (Hlen : length (nth k (rows (particles s)) []) = D).
  { rewrite Forall_forall in Hr. apply Hr. apply nth_In. lia. }
  destruct (Spec.redrawn mask k) eqn:Er.
  - apply (nth_ext _ _ NaN NaN).
    + rewrite Hlen'. unfold Spec.drawn_row. now rewrite length_map, length_seq.
    + intros c Hc'. rewrite Hlen' in Hc'. rewrite Hc by exact Hk. rewrite Er.
      cbn [andb Nat.leb]. rewrite HD.
      replace (c <? 0 + D) with true by (symmetry; apply Nat.ltb_lt; lia).
      unfold Spec.drawn_row. now rewrite nth_map_seq by lia.
  - apply (nth_ext _ _ NaN NaN); [ lia | ].
    intros c Hc'. rewrite Hc by exact Hk. rewrite Er. reflexivity.
Qed.

(** C6. [init_filter(mask)] with a boolean mask of length N: the call
    returns, every row where the mask is false is the row that was there
    before the call, and a row where the mask is true is redrawn (its
    column c is the entry of that row in the sample of prior c).  With no
    mask all N rows are redrawn.  The ensemble is N by D, with D priors
    that each return N values. *)
Theorem init_filter_mask_frame :
  forall (s : ParticleFilter prior) (rnd : Draws) (mask : list bool) (N D : nat),
    has_shape N D (particles s) -> n_particles s = N ->
    length (priors s) = D -> length mask = N ->
    (forall c, c < D -> length (rvs rnd c N) = N) ->
    (fst (init_filter (Some mask) rnd s) = Ok tt /\
     (forall k, k < N -> nth k mask false = false ->
        nth_error (rows (particles (snd (init_filter (Some mask) rnd s)))) k =
        nth_error (rows (particles s)) k) /\
     (forall k, k < N -> nth k mask false = true ->
        nth_error (rows (particles (snd (init_filter (Some mask) rnd s)))) k =
        Some (Spec.drawn_row rnd N D k))) /\
    (fst (init_filter None rnd s) = Ok tt /\
     (forall k, k < N ->
        nth_error (rows (particles (snd (init_filter None rnd s)))) k =
        Some (Spec.drawn_row rnd N D k))).
Proof.
  intros s rnd mask N D Hs HN HD Hm Hv. split.
  - destruct (init_filter_rows (Some mask) rnd N D s Hs HN HD Hm Hv)
      as (Hok & _ & Hrows).
    split; [ exact Hok | ]. split.
    + intros k Hk Hf. apply init_filter_frame_rows.
      rewrite (nth_error_nth' _ false (n := k)) by lia. now rewrite Hf.
    + intros k Hk Ht. rewrite Hrows by exact Hk. cbn [Spec.redrawn].
      now rewrite Ht.
  - destruct (init_filter_rows None rnd N D s Hs HN HD I Hv)
      as (Hok & _ & Hrows).
    split; [ exact Hok | ]. intros k Hk. now rewrite Hrows by exact Hk.
Qed.

End InitFilterClaims.

Lemma has_shape_pf1 : has_shape 2 1 (particles Examples.pf1).
Proof.
  split; [ reflexivity | ]. split; [ reflexivity | ].
  repeat constructor.
Defined.

Lemma fresh_draws_length :
  forall c, c < 1 -> length (rvs Examples.fresh_draws c 2) = 2.
Proof. intros c _. reflexivity. Defined.

Lemma init_filter_mask_frame_witness :
  nth_error
    (rows (particles
             (snd (init_filter (Some [true; false]) Examples.fresh_draws
                     Examples.pf1)))) 1
  = nth_error (rows (particles Examples.pf1)) 1.
Proof.
  exact (proj1 (proj2 (proj1
           (init_filter_mask_frame Examples.pf1 Examples.fresh_draws
              [true; false] 2 1 has_shape_pf1 eq_refl eq_refl eq_refl
              fresh_draws_length))) 1 (le_n 2) eq_refl).
Defined.

(* ================================================================== *)
(** ** The shape of the ensemble *)

(** The attributes of an object built from others are read off. *)
Ltac simp_pf :=
  cbn [column_names priors d n_particles inverse_fn dynamics_fn noise_fn
       weight_fn resample_proportion particles hypotheses weights
       mean_hypothesis mean_state resampled_particles
       set_particles set_hypotheses set_weights set_mean_hypothesis
       set_mean_state set_resampled_particles fst snd attr] in *.

Section ShapeFacts.

Context {prior : Type}.

Lemma np_zeros_has_shape (n k : nat) : has_shape n k (np_zeros n k).
Proof.
  unfold np_zeros, has_shape, nrows. cbn [rows ncols].
  split; [ apply repeat_length | ]. split; [ reflexivity | ].
  apply Forall_forall. intros r Hr. apply repeat_spec in Hr. subst r.
  apply repeat_length.
Qed.

Lemma norm_index_lt (n : nat) (i : Z) (k : nat) :
  norm_index n i = Ok k -> k < n.
Proof.
  unfold norm_index.
  destruct ((i <? - Z.of_nat n) || (Z.of_nat n <=? i))%Z eqn:E;
    [ discriminate | ].
  apply orb_false_iff in E. destruct E as [E1 E2].
  apply Z.ltb_ge in E1. apply Z.leb_gt in E2.
  intros H. inversion H; subst k.
  destruct (i <? 0)%Z eqn:E3.
  - apply Z.ltb_lt in E3. lia.
  - apply Z.ltb_ge in E3. lia.
Qed.

Lemma gather_spec (rws : list (list num)) (indices : list Z) :
  forall out,
    gather rws indices = Ok out ->
    length out = length indices /\ Forall (fun r => In r rws) out.
Proof.
  induction indices as [| i indices IH]; intros out H; simpl in H.
  - inversion H. split; [ reflexivity | constructor ].
  - destruct (norm_index (length rws) i) as [k | e] eqn:Ek; simpl in H;
      [ | discriminate ].
    destruct (gather rws indices) as [rest | e] eqn:Eg; simpl in H;
      [ | discriminate ].
    inversion H; subst out. destruct (IH rest eq_refl) as [Hl Hf].
    split; [ simpl; now rewrite Hl | ].
    constructor; [ | exact Hf ].
    apply nth_In. now apply norm_index_lt in Ek.
Qed.

(** [P[indices, :]] has one row per index and the columns of [P]. *)
Lemma take_rows_has_shape (n k : nat) (P P' : matrix) (indices : list Z) :
  has_shape n k P -> take_rows P indices = Ok P' ->
  has_shape (length indices) k P'.
Proof.
  intros (Hn & Hk & Hr) H. unfold take_rows in H.
  destruct (gather (rows P) indices) as [rws | e] eqn:Eg; simpl in H;
    [ | discriminate ].
  inversion H; subst P'. destruct (gather_spec _ _ _ Eg) as [Hl Hf].
  unfold has_shape, nrows. cbn [rows ncols].
  split; [ exact Hl | ]. split; [ exact Hk | ].
  rewrite Forall_forall in *. intros r Hin. apply Hr. now apply Hf.
Qed.

(** [resample] returns as many indices as the weights have entries along
    their first axis. *)
Lemma resample_length (W : ndarray) (u : num) (n : nat) (indices : list Z) :
  len W = Ok n -> resample W u = Ok indices -> length indices = n.
Proof.
  intros Hn H. unfold resample in H. rewrite Hn in H. cbn [rbind] in H.
  apply resample_loop_spec in H. destruct H as (js & Hl & -> & _).
  rewrite length_sample_points in Hl. simpl. now rewrite length_map.
Qed.

Lemma set_column_has_shape (n k : nat) (P P' : matrix) (i : nat)
    (vals : list num) :
  has_shape n k P -> set_column P i vals = Ok P' -> has_shape n k P'.
Proof.
  intros (Hn & Hk & Hr) H. unfold set_column in H.
  destruct (ncols P <=? i); [ discriminate | ].
  destruct (length vals =? nrows P) eqn:E.
  - apply Nat.eqb_eq in E. inversion H; subst P'.
    unfold has_shape, nrows in *. cbn [rows ncols].
    split; [ rewrite length_map, length_combine; lia | ].
    split; [ exact Hk | now apply Forall_set_rows ].
  - destruct vals as [| v [| v' vals]]; try discriminate.
    inversion H; subst P'. unfold has_shape, nrows in *. cbn [rows ncols].
    split; [ now rewrite length_map | ]. split; [ exact Hk | ].
    rewrite Forall_forall in *. intros r Hin. apply in_map_iff in Hin.
    destruct Hin as (r0 & <- & Hin). rewrite length_set_nth. now apply Hr.
Qed.

Lemma set_column_masked_has_shape (n k : nat) (P P' : matrix)
    (mask : list bool) (i : nat) (sel : list num) :
  has_shape n k P -> set_column_masked P mask i sel = Ok P' ->
  has_shape n k P'.
Proof.
  intros (Hn & Hk & Hr) H. unfold set_column_masked in H.
  destruct (negb (length mask =? nrows P) || (ncols P <=? i));
    [ discriminate | ].
  destruct (length sel =? count_true mask).
  - inversion H; subst P'. unfold has_shape, nrows in *. cbn [rows ncols].
    split; [ now rewrite length_put_masked | ].
    split; [ exact Hk | now apply Forall_put_masked ].
  - destruct sel as [| v [| v' sel]]; try discriminate.
    inversion H; subst P'. unfold has_shape, nrows in *. cbn [rows ncols].
    split; [ now rewrite length_put_masked | ].
    split; [ exact Hk | now apply Forall_put_masked ].
Qed.

Lemma init_column_has_shape (n k : nat) mask rnd i (s : ParticleFilter prior) :
  has_shape n k (particles s) ->
  has_shape n k (particles (snd (init_column mask rnd i s))).
Proof.
  intros Hs. unfold init_column, bind, get, call, assign.
  destruct mask as [m |].
  - destruct (bool_index m (rvs rnd i (n_particles s))) as [sel | e];
      [ | exact Hs ].
    destruct (set_column_masked (particles s) m i sel) as [P' | e] eqn:E;
      [ | exact Hs ].
    simp_pf. eapply set_column_masked_has_shape; eassumption.
  - destruct (set_column (particles s) i (rvs rnd i (n_particles s)))
      as [P' | e] eqn:E; [ | exact Hs ].
    simp_pf. eapply set_column_has_shape; eassumption.
Qed.

Lemma init_columns_has_shape (n k : nat) mask rnd (ps : list prior) :
  forall i (s : ParticleFilter prior),
    has_shape n k (particles s) ->
    has_shape n k (particles (snd (init_columns mask rnd i ps s))).
Proof.
  induction ps as [| p ps IH]; intros i s Hs; [ exact Hs | ].
  cbn [init_columns]. unfold bind at 1.
  pose proof (init_column_has_shape n k mask rnd i s Hs) as H1.
  destruct (init_column mask rnd i s) as [[[] | e] s1]; simpl in H1.
  - now apply IH.
  - exact H1.
Qed.

(** [init_filter] keeps the shape of the ensemble, whether it returns or
    raises. *)
Lemma init_filter_has_shape (n k : nat) mask rnd (s : ParticleFilter prior) :
  has_shape n k (particles s) ->
  has_shape n k (particles (snd (init_filter mask rnd s))).
Proof.
  intros Hs. unfold init_filter, bind, get. now apply init_columns_has_shape.
Qed.

(** The constructor makes an ensemble of [n_particles] rows and one column
    per prior. *)
Lemma init_has_shape (e : num -> num) (ps : list prior) inv n dyn noise wf rp cn :
  let s := __init__ e ps inv n dyn noise wf rp cn in
  has_shape (n_particles s) (d s) (particles s) /\ d s = length (priors s).
Proof. split; [ apply np_zeros_has_shape | reflexivity ]. Qed.

Lemma update_has_shape (s : ParticleFilter prior) (observed : ndarray)
    (rnd : Draws) (N D : nat) :
  has_shape N D (particles s) ->
  (forall P P', has_shape N D P -> dynamics_fn s P = Ok P' -> has_shape N D P') ->
  (forall P P', has_shape N D P -> noise_fn s P = Ok P' -> has_shape N D P') ->
  (forall P hyp w,
      has_shape N D P -> inverse_fn s P = Ok hyp ->
      weight_fn s hyp observed = Ok w -> len w = Ok N) ->
  has_shape N D (particles (snd (update observed rnd s))).
Proof.
  intros Hs Hdyn Hnoise Hw.
  cbv [update bind get call assign].
  destruct (dynamics_fn s (particles s)) as [P1 | e] eqn:E1; simp_pf;
    [ | exact Hs ].
  pose proof (Hdyn _ _ Hs E1) as Hs1.
  destruct (noise_fn s P1) as [P2 | e] eqn:E2; simp_pf; [ | exact Hs1 ].
  pose proof (Hnoise _ _ Hs1 E2) as Hs2.
  destruct (inverse_fn s P2) as [hyp | e] eqn:E3; simp_pf; [ | exact Hs2 ].
  destruct (weight_fn s hyp observed) as [w | e] eqn:E4; simp_pf;
    [ | exact Hs2 ].
  pose proof (Hw _ _ _ Hs2 E3 E4) as Hlw.
  destruct (resample _ (u0 rnd)) as [indices | e] eqn:E5; simp_pf;
    [ | exact Hs2 ].
  apply resample_length with (n := N) in E5; [ | exact Hlw ].
  destruct (take_rows P2 indices) as [P3 | e] eqn:E6; simp_pf;
    [ | exact Hs2 ].
  pose proof (take_rows_has_shape _ _ _ _ _ Hs2 E6) as Hs3.
  rewrite E5 in Hs3.
  destruct (weighted_sum hyp _) as [mh | e]; simp_pf; [ | exact Hs3 ].
  destruct (weighted_sum (of_matrix P3) _) as [ms | e]; simp_pf;
    [ | exact Hs3 ].
  apply init_filter_has_shape. simp_pf. exact Hs3.
Qed.


(** Cycle after cycle: the shape holds after any number of calls, for
    collaborators that keep it for every observation. *)
Lemma run_cycles_keep_shape (cycles : list (ndarray * Draws)) :
  forall (s : ParticleFilter prior) (N D : nat),
    has_shape N D (particles s) ->
    (forall P P', has_shape N D P -> dynamics_fn s P = Ok P' -> has_shape N D P') ->
    (forall P P', has_shape N D P -> noise_fn s P = Ok P' -> has_shape N D P') ->
    (forall observed P hyp w,
        has_shape N D P -> inverse_fn s P = Ok hyp ->
        weight_fn s hyp observed = Ok w -> len w = Ok N) ->
    has_shape N D (particles (run_cycles cycles s)).
Proof.
  induction cycles as [| [observed rnd] cycles IH];
    intros s N D Hs Hdyn Hnoise Hw; [ exact Hs | ].
  cbn [run_cycles].
  destruct (config_eq s _ (update_keeps_config observed rnd s))
    as (_ & _ & _ & Hi & Hdy & Hno & Hwf & _).
  apply IH.
  - apply update_has_shape; [ assumption | assumption | assumption | ].
    apply Hw.
  - now rewrite Hdy.
  - now rewrite Hno.
  - rewrite Hi, Hwf. exact Hw.
Qed.

End ShapeFacts.

(* ================================================================== *)
(** ** Sums and the normalisation of the weights *)

Section SumFacts.

Lemma add_is_Fin (a b : num) (t : Q) :
  (a + b)%num = Fin t ->
  exists x y, a = Fin x /\ b = Fin y /\ t = Qred (x + y).
Proof.
  destruct a as [x | | |], b as [y | | |]; simpl; try discriminate.
  intros H. inversion H. exists x, y. repeat split.
Qed.

(** A finite sum is a sum of finite numbers: infinities and NaN stay. *)
Lemma fold_add_Fin_inv (l : list num) :
  forall a t,
    fold_left Num.add l a = Fin t ->
    exists qa qs,
      a = Fin qa /\ l = map Fin qs /\ (t == qa + fold_right Qplus 0 qs)%Q.
Proof.
  induction l as [| x l IH]; intros a t H; simpl in H.
  - exists t, []. repeat split; [ exact H | ]. cbn [fold_right]. ring.
  - destruct (IH _ _ H) as (q' & qs & Ha & Hl & Ht).
    destruct (add_is_Fin _ _ _ Ha) as (xa & xq & -> & -> & ->).
    exists xa, (xq :: qs). repeat split; [ now rewrite Hl | ].
    cbn [fold_right]. rewrite Ht, Qred_correct. ring.
Qed.

Lemma fold_add_Fin (qs : list Q) :
  forall a,
    exists r,
      fold_left Num.add (map Fin qs) (Fin a) = Fin r /\
      (r == a + fold_right Qplus 0 qs)%Q.
Proof.
  induction qs as [| q qs IH]; intros a; cbn [map fold_left fold_right Num.add].
  - exists a. split; [ reflexivity | ring ].
  - destruct (IH (Qred (a + q))) as (r & Hr & Hv).
    exists r. split; [ exact Hr | ]. rewrite Hv, Qred_correct. ring.
Qed.

Lemma div_Fin_pos (q t : Q) :
  (0 < t)%Q -> (Fin q / Fin t)%num = Fin (Qred (q / t)).
Proof.
  intros Ht. unfold Num.div.
  apply (proj1 (Qgt_alt t 0)) in Ht. now rewrite Ht.
Qed.



(** A NaN among the summands makes the sum NaN. *)
Lemma fold_add_NaN (l : list num) : fold_left Num.add l NaN = NaN.
Proof. induction l as [| x l IH]; [ reflexivity | exact IH ]. Qed.

Lemma sum_with_NaN (l : list num) :
  forall a, In NaN l -> fold_left Num.add l a = NaN.
Proof.
  induction l as [| x l IH]; intros a Hin; [ contradiction | ].
  simpl. destruct Hin as [-> | Hin].
  - replace (a + NaN)%num with NaN by (now destruct a). apply fold_add_NaN.
  - now apply IH.
Qed.



(** What [np.clip(x, 0, inf)] returns, when finite, is not negative. *)
Lemma clip_Fin_nonneg (x : num) (q : Q) :
  Num.clip (Fin 0) PInf x = Fin q -> (0 <= q)%Q.
Proof.
  destruct x as [q0 | | |]; try discriminate.
  - unfold Num.clip, Num.maximum, Num.minimum, Num.ltb. cbn [is_nan orb].
    destruct (Fin 0 >? Fin q0)%num eqn:E; cbn [is_nan orb Num.gtb];
      intros H; inversion H; subst q.
    + apply Qle_refl.
    + now apply gtb_Fin_false in E.
  - vm_compute. intros H. inversion H. discriminate.
Qed.

Lemma Qsum_nonneg (qs : list Q) :
  Forall (fun q => (0 <= q)%Q) qs -> (0 <= fold_right Qplus 0 qs)%Q.
Proof.
  induction 1 as [| q qs Hq _ IH]; simpl; [ apply Qle_refl | lra ].
Qed.




End SumFacts.

(* ================================================================== *)
(** ** The update cycle *)

Section UpdateFacts.

Context {prior : Type}.


Lemma resample_range (W : ndarray) (u : num) (n : nat) (indices : list Z) :
  len W = Ok n -> resample W u = Ok indices ->
  Forall (fun i => (-1 <= i < Z.of_nat n)%Z) indices.
Proof.
  intros Hn H. unfold resample in H. rewrite Hn in H. cbn [rbind] in H.
  apply resample_loop_spec in H. destruct H as (js & Hl & -> & Hs).
  rewrite length_sample_points in Hl, Hs. cbn [app].
  apply Forall_forall. intros i Hi. apply in_map_iff in Hi.
  destruct Hi as (j & <- & Hj).
  destruct (In_nth _ _ 0 Hj) as (k & Hk & <-).
  specialize (Hs k ltac:(lia)). apply advance_spec in Hs.
  rewrite length_skipn, length_cumulative in Hs. lia.
Qed.





(** The cumulative table of weights with a NaN among them ends with NaN,
    which stops the cursor: [resample] returns, whatever the offset. *)
Lemma resample_total_NaN (l : list num) (u : num) :
  In NaN l -> exists indices, resample (vec l) u = Ok indices.
Proof.
  intros Hin. rewrite resample_vec. apply resample_loop_total.
  - rewrite length_cumulative. lia.
  - intros x _. rewrite last_cumulative. unfold Num.sum.
    rewrite sum_with_NaN by exact Hin. apply gtb_NaN_r.
Qed.


End UpdateFacts.

(* ================================================================== *)
(** ** Blocks of an array, broadcasting, and the default kernel *)

Section BlockFacts.

Lemma block_0 (k : nat) (l : list num) : block k 0 l = firstn k l.
Proof. reflexivity. Qed.

Lemma block_S (k i : nat) (l : list num) :
  block k (S i) l = block k i (skipn k l).
Proof.
  unfold block. rewrite skipn_skipn. f_equal. f_equal. simpl. lia.
Qed.

Lemma length_block (k i : nat) (l : list num) :
  (i + 1) * k <= length l -> length (block k i l) = k.
Proof.
  intros H. unfold block. rewrite length_firstn, length_skipn. nia.
Qed.

Lemma flat_map_ext_in {A B} (f g : A -> list B) (l : list A) :
  (forall a, In a l -> f a = g a) -> flat_map f l = flat_map g l.
Proof.
  induction l as [| a l IH]; intros H; [ reflexivity | ].
  simpl. rewrite (H a) by now left.
  rewrite IH; [ reflexivity | ]. intros b Hb. apply H. now right.
Qed.

Lemma flat_map_seq_S {B} (f : nat -> list B) (n : nat) :
  flat_map f (seq 0 (S n)) = f 0 ++ flat_map (fun i => f (S i)) (seq 0 n).
Proof.
  cbn [seq flat_map]. f_equal. rewrite <- seq_shift.
  induction (seq 0 n) as [| a l IH]; [ reflexivity | ].
  simpl. now rewrite IH.
Qed.

Lemma flat_map_single {A B} (f : A -> B) (l : list A) :
  flat_map (fun a => [f a]) l = map f l.
Proof. induction l as [| a l IH]; [ reflexivity | simpl; now rewrite IH ]. Qed.

(** Cutting an array in blocks and putting them end to end. *)
Lemma block_flat_map (k : nat) (g : nat -> list num) (n : nat) :
  forall i,
    (forall j, j < n -> length (g j) = k) -> i < n ->
    block k i (flat_map g (seq 0 n)) = g i.
Proof.
  revert g. induction n as [| n IH]; intros g i Hg Hi; [ lia | ].
  rewrite flat_map_seq_S. destruct i as [| i].
  - rewrite block_0, firstn_app, (Hg 0) by lia.
    rewrite Nat.sub_diag, firstn_0, app_nil_r.
    apply firstn_all2. rewrite Hg; lia.
  - rewrite block_S, skipn_app, (Hg 0) by lia.
    rewrite Nat.sub_diag, skipn_0, skipn_all2 by (rewrite Hg; lia).
    cbn [app]. apply (IH (fun j => g (S j))); [ | lia ].
    intros j Hj. apply Hg. lia.
Qed.

Lemma map_nth_seq (l : list num) :
  map (fun k => nth k l NaN) (seq 0 (length l)) = l.
Proof.
  induction l as [| x l IH]; [ reflexivity | ].
  cbn [length seq map nth]. f_equal.
  rewrite <- seq_shift, map_map. exact IH.
Qed.

Lemma length_zip_with f (a b : list num) :
  length a = length b -> length (Spec.zip_with f a b) = length a.
Proof.
  intros H. unfold Spec.zip_with. rewrite length_map, length_combine. lia.
Qed.

Lemma zip_with_app f (a a' b b' : list num) :
  length a = length b ->
  Spec.zip_with f (a ++ a') (b ++ b') = Spec.zip_with f a b ++ Spec.zip_with f a' b'.
Proof.
  intros H. unfold Spec.zip_with. rewrite <- map_app. f_equal.
  revert b H. induction a as [| x a IH]; intros [| y b] H; try discriminate;
    [ reflexivity | ].
  simpl. f_equal. apply IH. simpl in H. lia.
Qed.

Lemma zip_with_blocks f (k n : nat) :
  forall a b,
    length a = n * k -> length b = n * k ->
    flat_map (fun i => Spec.zip_with f (block k i a) (block k i b)) (seq 0 n)
    = Spec.zip_with f a b.
Proof.
  induction n as [| n IH]; intros a b Ha Hb.
  - destruct a; [ | discriminate ]. reflexivity.
  - rewrite flat_map_seq_S, !block_0.
    rewrite (flat_map_ext_in _
               (fun i => Spec.zip_with f (block k i (skipn k a))
                           (block k i (skipn k b))))
      by (intros i _; now rewrite !block_S).
    rewrite IH by (rewrite length_skipn; lia).
    rewrite <- zip_with_app
      by (rewrite !length_firstn; lia).
    now rewrite !firstn_skipn.
Qed.

(** Operands of one shape: the operator is applied entry by entry. *)
Lemma broadcast_data_same f (s : list nat) :
  forall a b,
    length a = size_of s -> length b = size_of s ->
    broadcast_data f s s a b = Spec.zip_with f a b.
Proof.
  induction s as [| n s IH]; intros a b Ha Hb.
  - destruct a as [| x [| ? ?]]; try discriminate.
    destruct b as [| y [| ? ?]]; try discriminate. reflexivity.
  - cbn [broadcast_data]. cbn [size_of fold_right] in Ha, Hb.
    fold (size_of s) in *.
    replace (if n =? 1 then n else n) with n by (now destruct (n =? 1)).
    rewrite (flat_map_ext_in _
               (fun i => Spec.zip_with f (block (size_of s) i a)
                           (block (size_of s) i b))).
    + now apply zip_with_blocks.
    + intros i Hi. apply in_seq in Hi.
      assert (Hidx : (if n =? 1 then 0 else i) = i).
      { destruct (n =? 1) eqn:E; [ | reflexivity ].
        apply Nat.eqb_eq in E. lia. }
      rewrite Hidx. apply IH; apply length_block; nia.
Qed.

(** One array against a single entry of the same inner shape: the entry
    is used for every block. *)
Lemma broadcast_data_batch f (n : nat) (s : list nat) (a b : list num) :
  length a = n * size_of s -> length b = size_of s ->
  broadcast_data f (n :: s) (1 :: s) a b =
  flat_map (fun i => Spec.zip_with f (block (size_of s) i a) b) (seq 0 n).
Proof.
  intros Ha Hb. cbn [broadcast_data]. cbn [Nat.eqb].
  replace (if n =? 1 then 1 else n) with n
    by (destruct (n =? 1) eqn:E; [ apply Nat.eqb_eq in E; lia | reflexivity ]).
  apply flat_map_ext_in. intros i Hi. apply in_seq in Hi.
  assert (Hidx : (if n =? 1 then 0 else i) = i).
  { destruct (n =? 1) eqn:E; [ | reflexivity ].
    apply Nat.eqb_eq in E. lia. }
  rewrite Hidx.
  replace (block (size_of s) 0 b) with b
    by (rewrite block_0; symmetry; apply firstn_all2; lia).
  apply broadcast_data_same; [ apply length_block; nia | exact Hb ].
Qed.

Lemma broadcast_shape_same (s : list nat) : broadcast_shape s s = Some s.
Proof.
  induction s as [| n s IH]; [ reflexivity | ].
  simpl. now rewrite IH, Nat.eqb_refl.
Qed.

Lemma broadcast_shape_batch (n : nat) (s : list nat) :
  broadcast_shape (n :: s) (1 :: s) = Some (n :: s).
Proof.
  simpl. rewrite broadcast_shape_same.
  destruct (n =? 1) eqn:E; [ | now destruct n as [| [| n]] ].
  apply Nat.eqb_eq in E. now subst n.
Qed.

Lemma broadcast_shape_length (s1 : list nat) :
  forall s2 s, broadcast_shape s1 s2 = Some s -> length s = length s1.
Proof.
  induction s1 as [| a s1 IH]; intros [| b s2] s H; simpl in H;
    try discriminate.
  - now inversion H.
  - destruct (broadcast_shape s1 s2) as [r |] eqn:E; [ | discriminate ].
    apply IH in E.
    destruct (a =? b); [ | destruct (a =? 1); [ | destruct (b =? 1) ] ];
      inversion H; simpl; now rewrite E.
Qed.

Lemma length_pad_shape (k : nat) (s : list nat) :
  length s <= k -> length (pad_shape k s) = k.
Proof.
  intros H. unfold pad_shape. rewrite length_app, repeat_length. lia.
Qed.

End BlockFacts.

Section KernelFacts.

Variable np_exp : num -> num.

Lemma map_flat_map {A} (f : num -> num) (g : A -> list num) (l : list A) :
  map f (flat_map g l) = flat_map (fun a => map f (g a)) l.
Proof.
  induction l as [| a l IH]; [ reflexivity | ].
  simpl. now rewrite map_app, IH.
Qed.

(** [x - y] for a batch [x] of [n] hypotheses of shape [s] and an
    observation of the shape of one hypothesis, with or without a leading
    axis of extent 1. *)
Lemma np_sub_batch (x y : ndarray) (n : nat) (s : list nat) :
  shape x = n :: s -> valid x ->
  shape y = s \/ shape y = 1 :: s -> valid y ->
  np_sub x y =
  Ok (mk_nd (n :: s)
        (flat_map (fun i => Spec.zip_with Num.sub
                              (block (size_of s) i (data x)) (data y))
           (seq 0 n))).
Proof.
  intros Hx Vx Hy Vy. unfold valid in *. rewrite Hx in Vx.
  cbn [size_of fold_right] in Vx. fold (size_of s) in Vx.
  assert (Vy' : length (data y) = size_of s).
  { destruct Hy as [Hy | Hy]; rewrite Hy in Vy; [ exact Vy | ].
    cbn [size_of fold_right] in Vy. fold (size_of s) in Vy. lia. }
  assert (Hpad : pad_shape (Nat.max (ndim x) (ndim y)) (shape x) = n :: s /\
                 pad_shape (Nat.max (ndim x) (ndim y)) (shape y) = 1 :: s).
  { unfold ndim, pad_shape. rewrite Hx.
    destruct Hy as [Hy | Hy]; rewrite Hy; cbn [length].
    - replace (Nat.max (S (length s)) (length s)) with (S (length s)) by lia.
      rewrite Nat.sub_diag.
      replace (S (length s) - length s) with 1 by lia. split; reflexivity.
    - rewrite Nat.max_id, Nat.sub_diag. split; reflexivity. }
  destruct Hpad as [Hp1 Hp2].
  unfold np_sub, np_binop. rewrite Hp1, Hp2, broadcast_shape_batch.
  rewrite broadcast_data_batch by assumption. reflexivity.
Qed.

Lemma length_zip_block (k i : nat) (a b : list num) :
  (i + 1) * k <= length a -> length b = k ->
  length (Spec.zip_with Num.sub (block k i a) b) = k.
Proof.
  intros Ha Hb. rewrite length_zip_with; rewrite length_block by exact Ha; lia.
Qed.

(** [squared_error] on hypotheses that are images (two axes after the
    batch axis): one weight per hypothesis, the kernel of its squared
    distance to the observation. *)
Lemma squared_error_images (x y : ndarray) (sigma : num) (n h w : nat) :
  shape x = [n; h; w] -> valid x ->
  shape y = [h; w] \/ shape y = [1; h; w] -> valid y ->
  squared_error np_exp x y sigma =
  Ok (mk_nd [n]
        (map (fun i =>
                np_exp (Num.neg (Spec.squared_distance
                                   (block (h * w) i (data x)) (data y))
                        / (Fin 2 * Num.square sigma))%num)
           (seq 0 n))).
Proof.
  intros Hx Vx Hy Vy.
  unfold squared_error. rewrite (np_sub_batch x y n [h; w]) by assumption.
  cbn [rbind]. unfold np_sum_axes12, np_map. cbn [shape data rbind].
  f_equal. f_equal. cbn [size_of fold_right].
  assert (Vx' : length (data x) = n * (h * w)).
  { unfold valid in Vx. rewrite Hx in Vx. cbn [size_of fold_right] in Vx. lia. }
  assert (Vy' : length (data y) = h * w).
  { unfold valid in Vy.
    destruct Hy as [Hy | Hy]; rewrite Hy in Vy;
      cbn [size_of fold_right] in Vy; lia. }
  replace (h * (w * 1)) with (h * w) by lia.
  replace (h * w * 1) with (h * w) by lia.
  rewrite (flat_map_ext_in _
             (fun i => [Spec.squared_distance (block (h * w) i (data x))
                          (data y)])).
  - rewrite flat_map_single, map_map. reflexivity.
  - intros i Hi. apply in_seq in Hi.
    rewrite map_flat_map.
    rewrite block_flat_map; [ | | lia ].
    + cbn [seq map]. f_equal. unfold Spec.squared_distance. f_equal.
      rewrite (map_ext (fun k => nth (k * 1 + 0) _ NaN)
                       (fun k => nth k (map Num.square
                          (Spec.zip_with Num.sub (block (h * w) i (data x))
                             (data y))) NaN))
        by (intros k; f_equal; lia).
      assert (Hl : length (map Num.square
                             (Spec.zip_with Num.sub
                                (block (h * w) i (data x)) (data y)))
                   = h * w).
      { rewrite length_map. apply length_zip_block; [ nia | exact Vy' ]. }
      rewrite <- Hl at 1. apply map_nth_seq.
    + intros j Hj. rewrite length_map.
      apply length_zip_block; [ nia | exact Vy' ].
Qed.

(** With fewer than two axes after the batch axis there is no axis 2 (or
    1) to sum over. *)
Lemma squared_error_needs_three_axes (x y : ndarray) (sigma : num) :
  ndim x < 3 -> ndim y < 3 ->
  squared_error np_exp x y sigma = Raise ValueError \/
  squared_error np_exp x y sigma = Raise AxisError.
Proof.
  intros Hx Hy. unfold squared_error, np_sub, np_binop.
  destruct (broadcast_shape _ _) as [s |] eqn:E; [ | now left ].
  right. apply broadcast_shape_length in E.
  rewrite length_pad_shape in E by (unfold ndim; lia).
  cbn [rbind]. unfold np_sum_axes12, np_map. cbn [shape].
  destruct s as [| a [| b [| c s]]]; try reflexivity.
  simpl in E. lia.
Qed.

End KernelFacts.


(* ================================================================== *)
(** ** The means, and the statements evaluated on the example filter *)

Section MeanFacts.

Context {prior : Type}.

(** What [update] stores as means when every step returns: the mean
    hypothesis is taken over the hypotheses, which are those of the
    ensemble before resampling; the mean state is taken over [P3], the
    ensemble after [particles[indices, :]]. *)
Lemma update_means (s : ParticleFilter prior) (observed : ndarray)
    (rnd : Draws) (P1 P2 P3 : matrix) (hyp w mh ms : ndarray)
    (indices : list Z) :
  let W := np_div_scalar (np_clip w (Fin 0) PInf)
             (np_sum (np_clip w (Fin 0) PInf)) in
  dynamics_fn s (particles s) = Ok P1 ->
  noise_fn s P1 = Ok P2 ->
  inverse_fn s P2 = Ok hyp ->
  weight_fn s hyp observed = Ok w ->
  resample W (u0 rnd) = Ok indices ->
  take_rows P2 indices = Ok P3 ->
  weighted_sum hyp W = Ok mh ->
  weighted_sum (of_matrix P3) W = Ok ms ->
  mean_hypothesis (snd (update observed rnd s)) = Some mh /\
  mean_state (snd (update observed rnd s)) = Some ms.
Proof.
  intros W E1 E2 E3 E4 E5 E6 E7 E8. subst W.
  cbv [update bind get call assign].
  rewrite E1. simp_pf. rewrite E2. simp_pf. rewrite E3. simp_pf.
  rewrite E4. simp_pf. rewrite E5. simp_pf. rewrite E6. simp_pf.
  rewrite E7. simp_pf. rewrite E8. simp_pf.
  rewrite (init_filter_keeps mean_hypothesis) by reflexivity.
  rewrite (init_filter_keeps mean_state) by reflexivity.
  split; reflexivity.
Qed.

End MeanFacts.

(** C1, on the example filter.  Particles [[0], [3]], identity sensor,
    observation 0, offset 1/2: the weights are [10/11, 1/11] and both
    indices are 0.  The mean hypothesis is the weighted average of the
    hypotheses of the ensemble before resampling, 3/11.  The mean state is
    0: it is computed from the rows after resampling, [[0], [0]], whereas
    the weighted average of the ensemble before resampling is 3/11. *)
Theorem update_mean_state_after_resample :
  let r := update Examples.observed_near Examples.draws Examples.pf1 in
  let W := mk_nd [2] [Fin (10 # 11); Fin (1 # 11)] in
  fst r = Ok tt /\
  weights (snd r) = Some W /\
  particles (snd r) = mk_matrix 1 [[Fin 0]; [Fin 0]] /\
  mean_hypothesis (snd r) = Some (mk_nd [1] [Fin (3 # 11)]) /\
  mean_state (snd r) = Some (mk_nd [1] [Fin 0]) /\
  weighted_sum (of_matrix (particles Examples.pf1)) W
  = Ok (mk_nd [1] [Fin (3 # 11)]).
Proof. vm_compute. repeat split; reflexivity. Qed.

(** The same cycle with offset 0: the indices are [-1, 0], and the first
    row after resampling is the last particle, [3], whose weight is 1/11. *)
Lemma update_zero_offset_selects_last :
  let r := update Examples.observed_near Examples.draws_zero_offset
             Examples.pf1 in
  resample (mk_nd [2] [Fin (10 # 11); Fin (1 # 11)]) (Fin 0)
  = Ok [-1; 0]%Z /\
  particles (snd r) = mk_matrix 1 [[Fin 3]; [Fin 0]].
Proof. vm_compute. split; reflexivity. Qed.


Lemma rvs_draws_length :
  forall c, c < 1 -> length (rvs Examples.draws c 2) = 2.
Proof. intros c _. reflexivity. Defined.










(* ================================================================== *)
(** ** Further properties of resample *)

Section ResampleMore.

Lemma advance_raises (u : num) (rest : list num) :
  forall j e, advance u rest j = Raise e -> e = IndexError.
Proof.
  induction rest as [| c rest IH]; intros j e H; simpl in H.
  - now inversion H.
  - destruct (u >? c)%num; [ now apply IH in H | discriminate ].
Qed.

Lemma resample_loop_raises (C us : list num) :
  forall j acc e, resample_loop C us j acc = Raise e -> e = IndexError.
Proof.
  induction us as [| u us IH]; intros j acc e H; simpl in H; [ discriminate | ].
  destruct (advance u (skipn j C) j) as [j' | e'] eqn:E.
  - now apply IH in H.
  - inversion H; subst e'. now apply advance_raises in E.
Qed.

(** The cursors of two consecutive sample points. *)
Lemma resample_cursors (W : ndarray) (u : num) (n : nat) (indices : list Z) :
  len W = Ok n -> resample W u = Ok indices ->
  exists js,
    length js = n /\
    indices = map (fun j => (Z.of_nat j - 1)%Z) js /\
    forall i, i < n -> nth i (0 :: js) 0 <= nth i js 0 <= n.
Proof.
  intros Hn H. unfold resample in H. rewrite Hn in H. cbn [rbind] in H.
  apply resample_loop_spec in H. destruct H as (js & Hl & -> & Hs).
  rewrite length_sample_points in Hl, Hs.
  exists js. split; [ exact Hl | ]. split; [ reflexivity | ].
  intros i Hi. specialize (Hs i Hi). apply advance_spec in Hs.
  rewrite length_skipn, length_cumulative in Hs. lia.
Qed.

(** X1. What [resample] returns has one index per entry of the weights
    along their first axis, and every index lies between -1 and n-1. *)
Theorem resample_count_and_bounds :
  forall (W : ndarray) (u : num) (n : nat) (indices : list Z),
    len W = Ok n -> resample W u = Ok indices ->
    length indices = n /\
    Forall (fun i => (-1 <= i < Z.of_nat n)%Z) indices.
Proof.
  intros W u n indices Hn H. split.
  - exact (resample_length W u n indices Hn H).
  - exact (resample_range W u n indices Hn H).
Qed.

Lemma resample_count_and_bounds_witness :
  length [0; 1; 2; 3]%Z = 4 /\
  Forall (fun i => (-1 <= i < Z.of_nat 4)%Z) [0; 1; 2; 3]%Z.
Proof.
  exact (resample_count_and_bounds (vec Examples.weights_1234) (Fin (5 # 100))
           4 [0; 1; 2; 3]%Z eq_refl eq_refl).
Defined.

(** X2. The indices [resample] returns never decrease: the cursor only
    moves forward from one sample point to the next. *)
Theorem resample_indices_nondecreasing :
  forall (W : ndarray) (u : num) (indices : list Z),
    resample W u = Ok indices ->
    forall i k, i <= k -> k < length indices ->
      (nth i indices 0 <= nth k indices 0)%Z.
Proof.
  intros W u indices H.
  destruct (len W) as [n | e] eqn:Hn;
    [ | unfold resample in H; rewrite Hn in H; discriminate ].
  destruct (resample_cursors W u n indices Hn H) as (js & Hl & -> & Hs).
  rewrite length_map.
  assert (Hnth : forall i, i < length js ->
            nth i (map (fun j => (Z.of_nat j - 1)%Z) js) 0%Z
            = (Z.of_nat (nth i js 0%nat) - 1)%Z).
  { intros i Hi.
    rewrite (@nth_indep Z _ i 0%Z ((fun j => (Z.of_nat j - 1)%Z) 0%nat))
      by (now rewrite length_map).
    now rewrite (map_nth (fun j => (Z.of_nat j - 1)%Z)). }
  assert (Hmono : forall i k, i <= k -> k < length js ->
            nth i js 0 <= nth k js 0).
  { intros i k Hik Hk. induction k as [| k IH].
    - replace i with 0 by lia. lia.
    - destruct (Nat.eq_dec i (S k)) as [-> | Hne]; [ lia | ].
      assert (H1 : nth i js 0 <= nth k js 0) by (apply IH; lia).
      assert (H2 := Hs (S k) ltac:(lia)). simpl nth in H2. lia. }
  intros i k Hik Hk. rewrite !Hnth by lia.
  specialize (Hmono i k Hik Hk). lia.
Qed.

Lemma resample_indices_nondecreasing_witness :
  (nth 1 [-1; 0; 0; 0] 0 <= nth 3 [-1; 0; 0; 0] 0)%Z.
Proof.
  exact (resample_indices_nondecreasing (vec Examples.weights_1000) (Fin 0)
           [-1; 0; 0; 0]%Z eq_refl 1 3 (le_S 1 2 (le_S 1 1 (le_n 1)))
           (le_n 4)).
Defined.

(** X3. [resample] raises nothing but IndexError on weights that have a
    length (the cursor ran off the cumulative table), and TypeError on a
    0-d array, whose [len] does not exist. *)
Theorem resample_exceptions :
  forall (W : ndarray) (u : num) (e : exn),
    resample W u = Raise e ->
    (shape W = [] /\ e = TypeError) \/ (shape W <> [] /\ e = IndexError).
Proof.
  intros W u e H. unfold resample, len in H.
  destruct (shape W) as [| n s] eqn:Hs; cbn [rbind] in H.
  - left. split; [ reflexivity | now inversion H ].
  - right. split; [ discriminate | ]. now apply resample_loop_raises in H.
Qed.

Lemma resample_exceptions_witness :
  (shape (vec [Fin 0; Fin 0]) = [] /\ IndexError = TypeError) \/
  (shape (vec [Fin 0; Fin 0]) <> [] /\ IndexError = IndexError).
Proof.
  exact (resample_exceptions (vec [Fin 0; Fin 0]) (Fin (1 # 2)) IndexError
           eq_refl).
Defined.

End ResampleMore.

Section ResampleWeights.

Lemma Ctab_map_Fin (qs : list Q) (k : nat) :
  exists r, Spec.Ctab (map Fin qs) k = Fin r /\
            (r == fold_right Qplus 0 (firstn k qs))%Q.
Proof.
  unfold Spec.Ctab, Num.sum. rewrite firstn_map.
  destruct (fold_add_Fin (firstn k qs) 0) as (r & Hr & Hv).
  exists r. split; [ exact Hr | ]. now rewrite Hv, Qplus_0_l.
Qed.

Lemma Qsum_firstn_le (qs : list Q) :
  Forall (fun q => (0 <= q)%Q) qs ->
  forall k,
    (fold_right Qplus 0 (firstn k qs) <= fold_right Qplus 0 qs)%Q.
Proof.
  induction 1 as [| q qs Hq Hqs IH]; intros k.
  - rewrite firstn_nil. apply Qle_refl.
  - destruct k as [| k]; cbn [firstn fold_right].
    + pose proof (Qsum_nonneg qs Hqs). lra.
    + specialize (IH k). lra.
Qed.

(** X4. Weights that fall short: finite non-negative weights whose sum is
    below the last sample point, (u0 + n - 1)/n, make the cursor run off
    the cumulative table, and [resample] raises IndexError. *)
Theorem resample_underweight_raises :
  forall (qs : list Q) (q : Q),
    qs <> [] ->
    Forall (fun x => (0 <= x)%Q) qs ->
    (fold_right Qplus 0 qs * inject_Z (Z.of_nat (length qs))
     < q + inject_Z (Z.of_nat (length qs - 1)))%Q ->
    resample (vec (map Fin qs)) (Fin q) = Raise IndexError.
Proof.
  intros qs q Hne Hnn Hlt.
  assert (Hn : length qs <> 0) by (destruct qs; [ congruence | discriminate ]).
  destruct (resample (vec (map Fin qs)) (Fin q)) as [indices | e] eqn:E.
  - exfalso. apply resample_iff_systematic in E.
    destruct E as (js & Hl & _ & Hs). rewrite length_map in Hl, Hs.
    specialize (Hs (length qs - 1) ltac:(lia)).
    destruct Hs as (_ & _ & _ & Hstop).
    destruct (upoint_Fin q (length qs) (length qs - 1) Hn) as (x & Hx & Hxv).
    destruct (Ctab_map_Fin qs (nth (length qs - 1) js 0)) as (c & Hc & Hcv).
    rewrite Hx, Hc in Hstop. apply gtb_Fin_false in Hstop.
    pose proof (Qsum_firstn_le qs Hnn (nth (length qs - 1) js 0)) as Hle.
    assert (Hx' : (fold_right Qplus 0 qs < x)%Q).
    { rewrite Hxv. apply Qlt_shift_div_l; [ now apply inject_nat_pos | ].
      exact Hlt. }
    rewrite Hcv in Hstop. lra.
  - f_equal. rewrite resample_vec in E. now apply resample_loop_raises in E.
Qed.

Lemma resample_underweight_raises_witness :
  resample (vec (map Fin [1 # 4; 1 # 4]%Q)) (Fin (1 # 2)) = Raise IndexError.
Proof.
  apply (resample_underweight_raises [1 # 4; 1 # 4]%Q (1 # 2)).
  - discriminate.
  - repeat constructor; discriminate.
  - reflexivity.
Defined.

(** X5. Weights with a NaN among them (as the normalisation leaves them
    when the sum is zero or not finite) never make [resample] raise: it
    returns one index per weight, whatever the offset. *)
Theorem resample_accepts_NaN :
  forall (l : list num) (u : num),
    In NaN l ->
    exists indices,
      resample (vec l) u = Ok indices /\ length indices = length l.
Proof.
  intros l u Hin. destruct (resample_total_NaN l u Hin) as (indices & H).
  exists indices. split; [ exact H | ].
  now apply (resample_length (vec l) u).
Qed.

Lemma resample_accepts_NaN_witness :
  exists indices,
    resample (vec [Fin 1; NaN]) (Fin (1 # 2)) = Ok indices /\
    length indices = length [Fin 1; NaN].
Proof.
  exact (resample_accepts_NaN [Fin 1; NaN] (Fin (1 # 2))
           (or_intror (or_introl eq_refl))).
Defined.

Lemma Ctab_S (w : list num) :
  forall j x, nth_error w j = Some x ->
    Spec.Ctab w (S j) = (Spec.Ctab w j + x)%num.
Proof.
  unfold Spec.Ctab, Num.sum.
  assert (H : forall j x, nth_error w j = Some x ->
                firstn (S j) w = firstn j w ++ [x]).
  { induction w as [| y w IH]; intros [| j] x Hx; simpl in Hx; try discriminate.
    - now inversion Hx.
    - cbn [firstn app]. f_equal. now apply IH. }
  intros j x Hx. rewrite (H j x Hx), fold_left_app. reflexivity.
Qed.

Lemma gtb_add_zero (u c : num) (z : Q) :
  (z == 0)%Q -> (u >? c + Fin z)%num = (u >? c)%num.
Proof.
  intros Hz. destruct c as [c0 | | |]; try reflexivity.
  cbn [Num.add]. destruct u as [x | | |]; try reflexivity.
  unfold Num.gtb.
  assert (Hc : (Qred (c0 + z) == c0)%Q) by (rewrite Qred_correct, Hz; ring).
  now rewrite Hc.
Qed.

(** The sample point whose cursor first lands on a position came to it
    from before that position. *)
Lemma first_landing (js : list nat) (t : nat) :
  forall i, i < length js -> nth i js 0 = t ->
    (forall k, k < length js -> nth k (0 :: js) 0 <= nth k js 0) ->
    t <> 0 ->
    exists i', i' < length js /\ nth i' js 0 = t /\ nth i' (0 :: js) 0 < t.
Proof.
  intros i Hi Ht Hmono Hpos. induction i as [| i IH].
  - exists 0. split; [ exact Hi | ]. split; [ exact Ht | simpl; lia ].
  - destruct (Nat.eq_dec (nth i js 0) t) as [Heq | Hne].
    + apply IH; [ lia | exact Heq ].
    + exists (S i). split; [ exact Hi | ]. split; [ exact Ht | ].
      specialize (Hmono (S i) Hi). simpl nth in *. lia.
Qed.

(** X6. A particle whose weight is zero is never selected by its index:
    the cursor cannot stop between two equal entries of the cumulative
    table. *)
Theorem resample_skips_zero_weight :
  forall (w : list num) (u : num) (indices : list Z) (j : nat) (z : Q),
    resample (vec w) u = Ok indices ->
    nth_error w j = Some (Fin z) -> (z == 0)%Q ->
    ~ In (Z.of_nat j) indices.
Proof.
  intros w u indices j z H Hj Hz Hin.
  apply resample_iff_systematic in H. destruct H as (js & Hl & -> & Hs).
  apply in_map_iff in Hin. destruct Hin as (t & Ht & Hin).
  assert (Ht' : t = S j) by lia. subst t.
  destruct (In_nth _ _ 0 Hin) as (i & Hi & Hnth).
  destruct (first_landing js (S j) i Hi Hnth) as (i' & Hi' & Hland & Hfrom).
  - intros k Hk. rewrite Hl in Hk. now destruct (Hs k Hk).
  - discriminate.
  - rewrite Hl in Hi'. destruct (Hs i' Hi') as (_ & _ & Hpass & Hstop).
    rewrite Hland in Hpass, Hstop.
    specialize (Hpass j ltac:(lia)).
    rewrite (Ctab_S w j (Fin z) Hj), gtb_add_zero in Hstop by exact Hz.
    congruence.
Qed.

Lemma resample_skips_zero_weight_witness :
  ~ In (Z.of_nat 1) [0; 0; 0; 0]%Z.
Proof.
  exact (resample_skips_zero_weight Examples.weights_1000 (Fin (1 # 2))
           [0; 0; 0; 0]%Z 1 0 eq_refl eq_refl (Qeq_refl 0)).
Defined.

End ResampleWeights.

Section ResampleUniform.




End ResampleUniform.

(* ================================================================== *)
(** ** Further properties of update and init_filter *)

Section WeightsMore.

Lemma Qsum_member_le (qs : list Q) (q : Q) :
  Forall (fun x => (0 <= x)%Q) qs -> In q qs ->
  (q <= fold_right Qplus 0 qs)%Q.
Proof.
  induction 1 as [| x qs Hx Hqs IH]; intros Hin; [ contradiction | ].
  cbn [fold_right]. pose proof (Qsum_nonneg qs Hqs) as Hn.
  destruct Hin as [-> | Hin]; [ lra | ]. specialize (IH Hin). lra.
Qed.

(** Clipped weights with a finite positive sum [t] are finite and not
    negative, and dividing by [t] divides their values. *)
Lemma clipped_quotients (l : list num) (t : Q) :
  Num.sum (map (Num.clip (Fin 0) PInf) l) = Fin t -> (0 < t)%Q ->
  exists qs,
    map (Num.clip (Fin 0) PInf) l = map Fin qs /\
    Forall (fun q => (0 <= q)%Q) qs /\
    (t == fold_right Qplus 0 qs)%Q /\
    map (fun x => (x / Fin t)%num) (map (Num.clip (Fin 0) PInf) l)
    = map (fun q => Fin (Qred (q / t))) qs.
Proof.
  intros Hs Ht. unfold Num.sum in Hs.
  destruct (fold_add_Fin_inv _ _ _ Hs) as (qa & qs & Ha & Hl & Hv).
  inversion Ha; subst qa. clear Ha. rewrite Qplus_0_l in Hv.
  exists qs. split; [ exact Hl | ]. split; [ | split; [ exact Hv | ] ].
  - apply Forall_forall. intros q Hq.
    assert (Hin : In (Fin q) (map (Num.clip (Fin 0) PInf) l))
      by (rewrite Hl; now apply in_map).
    apply in_map_iff in Hin. destruct Hin as (x & Hx & _).
    now apply clip_Fin_nonneg in Hx.
  - rewrite Hl, map_map. apply map_ext. intros q. now apply div_Fin_pos.
Qed.

Lemma quotient_bounds (qs : list Q) (t q : Q) :
  Forall (fun x => (0 <= x)%Q) qs -> (t == fold_right Qplus 0 qs)%Q ->
  (0 < t)%Q -> In q qs ->
  (0 <= Qred (q / t))%Q /\ (Qred (q / t) <= 1)%Q.
Proof.
  intros Hnn Hv Ht Hin. rewrite Qred_correct.
  assert (Hq0 : (0 <= q)%Q) by (rewrite Forall_forall in Hnn; now apply Hnn).
  pose proof (Qsum_member_le qs q Hnn Hin) as Hq1. rewrite <- Hv in Hq1.
  split.
  - apply Qle_shift_div_l; [ exact Ht | lra ].
  - apply Qle_shift_div_r; [ exact Ht | lra ].
Qed.

End WeightsMore.

Section UpdateMore.

Context {prior : Type}.

(** The weights [update] stores, when the collaborators have returned. *)
Lemma update_stored_weights (s : ParticleFilter prior) (observed : ndarray)
    (rnd : Draws) (P1 P2 : matrix) (hyp w : ndarray) :
  dynamics_fn s (particles s) = Ok P1 ->
  noise_fn s P1 = Ok P2 ->
  inverse_fn s P2 = Ok hyp ->
  weight_fn s hyp observed = Ok w ->
  weights (snd (update observed rnd s))
  = Some (np_div_scalar (np_clip w (Fin 0) PInf)
            (np_sum (np_clip w (Fin 0) PInf))).
Proof.
  intros E1 E2 E3 E4. cbv [update bind get call assign].
  rewrite E1. simp_pf. rewrite E2. simp_pf. rewrite E3. simp_pf.
  rewrite E4. simp_pf.
  destruct (resample _ (u0 rnd)) as [indices | e]; simp_pf; [ | reflexivity ].
  destruct (take_rows P2 indices) as [P3 | e]; simp_pf; [ | reflexivity ].
  destruct (weighted_sum hyp _) as [mh | e]; simp_pf; [ | reflexivity ].
  destruct (weighted_sum (of_matrix P3) _) as [ms | e]; simp_pf;
    [ | reflexivity ].
  rewrite (init_filter_keeps weights) by reflexivity. reflexivity.
Qed.

(** X8. Every weight [update] stores lies between 0 and 1 when the
    clipped raw weights have a finite, strictly positive sum. *)
Theorem update_weights_in_unit_range :
  forall (s : ParticleFilter prior) (observed : ndarray) (rnd : Draws)
         (P1 P2 : matrix) (hyp w : ndarray) (t : Q),
    dynamics_fn s (particles s) = Ok P1 ->
    noise_fn s P1 = Ok P2 ->
    inverse_fn s P2 = Ok hyp ->
    weight_fn s hyp observed = Ok w ->
    np_sum (np_clip w (Fin 0) PInf) = Fin t -> (0 < t)%Q ->
    exists W,
      weights (snd (update observed rnd s)) = Some W /\
      shape W = shape w /\
      forall x, In x (data W) ->
        exists q, x = Fin q /\ (0 <= q)%Q /\ (q <= 1)%Q.
Proof.
  intros s observed rnd P1 P2 hyp w t E1 E2 E3 E4 Hsum Ht.
  exists (np_div_scalar (np_clip w (Fin 0) PInf)
            (np_sum (np_clip w (Fin 0) PInf))).
  split; [ exact (update_stored_weights s observed rnd P1 P2 hyp w E1 E2 E3 E4) | ].
  split; [ reflexivity | ].
  rewrite Hsum. unfold np_div_scalar, np_clip, np_map, np_sum in *.
  cbn [data] in *.
  destruct (clipped_quotients (data w) t Hsum Ht) as (qs & _ & Hnn & Hv & ->).
  intros x Hx. apply in_map_iff in Hx. destruct Hx as (q & <- & Hq).
  exists (Qred (q / t)). split; [ reflexivity | ].
  now apply (quotient_bounds qs).
Qed.

Lemma clip_nonpositive (r : Q) :
  (r <= 0)%Q -> exists q, Num.clip (Fin 0) PInf (Fin r) = Fin q /\ (q == 0)%Q.
Proof.
  intros Hr. unfold Num.clip, Num.maximum, Num.minimum, Num.ltb.
  cbn [is_nan orb].
  destruct (Fin 0 >? Fin r)%num eqn:E; cbn [is_nan orb Num.gtb].
  - exists 0%Q. split; reflexivity.
  - exists r. split; [ reflexivity | ].
    apply gtb_Fin_false in E. lra.
Qed.

(** X9. A raw weight that is zero or negative (a kernel may return one)
    is stored as the weight 0: the particle keeps no share of the
    normalized weights. *)
Theorem update_clips_negative_weight :
  forall (s : ParticleFilter prior) (observed : ndarray) (rnd : Draws)
         (P1 P2 : matrix) (hyp w : ndarray) (t r : Q) (k : nat),
    dynamics_fn s (particles s) = Ok P1 ->
    noise_fn s P1 = Ok P2 ->
    inverse_fn s P2 = Ok hyp ->
    weight_fn s hyp observed = Ok w ->
    np_sum (np_clip w (Fin 0) PInf) = Fin t -> (0 < t)%Q ->
    nth_error (data w) k = Some (Fin r) -> (r <= 0)%Q ->
    exists W,
      weights (snd (update observed rnd s)) = Some W /\
      nth_error (data W) k = Some (Fin 0).
Proof.
  intros s observed rnd P1 P2 hyp w t r k E1 E2 E3 E4 Hsum Ht Hk Hr.
  exists (np_div_scalar (np_clip w (Fin 0) PInf)
            (np_sum (np_clip w (Fin 0) PInf))).
  split; [ exact (update_stored_weights s observed rnd P1 P2 hyp w E1 E2 E3 E4) | ].
  rewrite Hsum. unfold np_div_scalar, np_clip, np_map. cbn [data].
  rewrite map_map, nth_error_map, Hk. cbn [option_map]. f_equal.
  destruct (clip_nonpositive r Hr) as (q & -> & Hq).
  rewrite div_Fin_pos by exact Ht. f_equal.
  change 0%Q with (Qred 0). apply Qred_complete.
  rewrite Hq. unfold Qdiv. ring.
Qed.

End UpdateMore.

Lemma update_weights_in_unit_range_witness :
  exists W,
    weights (snd (update Examples.observed_near Examples.draws Examples.pf1))
    = Some W /\
    shape W = shape (mk_nd [2] [Fin 10; Fin 1]) /\
    forall x, In x (data W) ->
      exists q, x = Fin q /\ (0 <= q)%Q /\ (q <= 1)%Q.
Proof.
  exact (update_weights_in_unit_range Examples.pf1 Examples.observed_near
           Examples.draws (particles Examples.pf1) (particles Examples.pf1)
           (of_matrix (particles Examples.pf1)) (mk_nd [2] [Fin 10; Fin 1])
           11 eq_refl eq_refl eq_refl eq_refl eq_refl eq_refl).
Defined.

Lemma update_clips_negative_weight_witness :
  exists W,
    weights (snd (update (mk_nd [1] [Fin 4]) Examples.draws Examples.pf1))
    = Some W /\
    nth_error (data W) 0 = Some (Fin 0).
Proof.
  exact (update_clips_negative_weight Examples.pf1 (mk_nd [1] [Fin 4])
           Examples.draws (particles Examples.pf1) (particles Examples.pf1)
           (of_matrix (particles Examples.pf1)) (mk_nd [2] [Fin (-6); Fin 9])
           9 (-6) 0 eq_refl eq_refl eq_refl eq_refl eq_refl eq_refl eq_refl
           ltac:(discriminate)).
Defined.

Section UpdateOutcome.

Context {prior : Type}.


(** X11. A collaborator that raises ends the cycle with its exception.
    If the dynamics raise, the object is as before the call; if the kernel
    raises, the particles have already been moved by the dynamics and the
    noise and the hypotheses replaced, while the weights, the means and the
    mask are those of the cycle before. *)
Theorem update_collaborator_failure :
  forall (s : ParticleFilter prior) (observed : ndarray) (rnd : Draws)
         (e : exn),
    (dynamics_fn s (particles s) = Raise e ->
     update observed rnd s = (Raise e, s)) /\
    (forall (P1 P2 : matrix) (hyp : ndarray),
        dynamics_fn s (particles s) = Ok P1 ->
        noise_fn s P1 = Ok P2 ->
        inverse_fn s P2 = Ok hyp ->
        weight_fn s hyp observed = Raise e ->
        let s' := snd (update observed rnd s) in
        fst (update observed rnd s) = Raise e /\
        particles s' = P2 /\ hypotheses s' = Some hyp /\
        weights s' = weights s /\
        mean_hypothesis s' = mean_hypothesis s /\
        mean_state s' = mean_state s /\
        resampled_particles s' = resampled_particles s).
Proof.
  intros s observed rnd e. split.
  - intros E1. cbv [update bind get call assign]. now rewrite E1.
  - intros P1 P2 hyp E1 E2 E3 E4. cbv zeta.
    cbv [update bind get call assign].
    rewrite E1. simp_pf. rewrite E2. simp_pf. rewrite E3. simp_pf.
    rewrite E4. simp_pf. repeat split; reflexivity.
Qed.

Lemma put_masked_all_false (i : nat) (mask : list bool) :
  Forall (fun b => b = false) mask ->
  forall rws sel, put_masked mask i rws sel = rws.
Proof.
  induction 1 as [| b mask Hb _ IH]; intros rws sel; [ reflexivity | ].
  subst b. destruct rws as [| r rws]; [ reflexivity | ].
  cbn [put_masked]. now rewrite IH.
Qed.

Lemma init_column_all_false (m : list bool) (rnd : Draws) (i : nat)
    (s : ParticleFilter prior) :
  Forall (fun b => b = false) m ->
  particles (snd (init_column (Some m) rnd i s)) = particles s.
Proof.
  intros Hm. unfold init_column, bind, get, call, assign.
  destruct (bool_index m (rvs rnd i (n_particles s))) as [sel | e];
    [ | reflexivity ].
  unfold set_column_masked.
  destruct (negb (length m =? nrows (particles s)) || (ncols (particles s) <=? i));
    [ reflexivity | ].
  destruct (length sel =? count_true m).
  - simp_pf. rewrite put_masked_all_false by exact Hm.
    now destruct (particles s).
  - destruct sel as [| v [| v' sel]]; try reflexivity.
    simp_pf. rewrite put_masked_all_false by exact Hm.
    now destruct (particles s).
Qed.

(** X12. [init_filter] with a mask that marks no particle leaves the
    ensemble as it is, whether the call returns or raises. *)
Theorem init_filter_empty_mask :
  forall (s : ParticleFilter prior) (rnd : Draws) (m : list bool),
    Forall (fun b => b = false) m ->
    particles (snd (init_filter (Some m) rnd s)) = particles s.
Proof.
  intros s rnd m Hm. unfold init_filter, bind, get. cbn [fst snd].
  generalize 0. generalize (priors s) as ps. intros ps. revert s.
  induction ps as [| p ps IH]; intros s i; [ reflexivity | ].
  cbn [init_columns]. unfold bind at 1.
  pose proof (init_column_all_false m rnd i s Hm) as H1.
  destruct (init_column (Some m) rnd i s) as [[[] | e] s1]; simpl in H1.
  - now rewrite IH.
  - exact H1.
Qed.

(** X13. When no draw falls below [resample_proportion] (as with a
    proportion of 0), no particle is redrawn: once the collaborators have
    returned, every particle of the ensemble after [update] is a particle
    of the ensemble that the dynamics and the noise produced. *)
Theorem update_without_injection :
  forall (s : ParticleFilter prior) (observed : ndarray) (rnd : Draws)
         (P1 P2 : matrix) (hyp w : ndarray),
    dynamics_fn s (particles s) = Ok P1 ->
    noise_fn s P1 = Ok P2 ->
    inverse_fn s P2 = Ok hyp ->
    weight_fn s hyp observed = Ok w ->
    (forall k, k < n_particles s ->
               (mask_draw rnd k <? resample_proportion s)%num = false) ->
    Forall (fun r => In r (rows P2))
      (rows (particles (snd (update observed rnd s)))).
Proof.
  intros s observed rnd P1 P2 hyp w E1 E2 E3 E4 Hmask.
  assert (Hall : Forall (fun b => b = false)
            (map (fun i => (mask_draw rnd i <? resample_proportion s)%num)
               (seq 0 (n_particles s)))).
  { apply Forall_forall. intros b Hb. apply in_map_iff in Hb.
    destruct Hb as (k & <- & Hk). apply in_seq in Hk. apply Hmask. lia. }
  assert (Hself : Forall (fun r => In r (rows P2)) (rows P2))
    by (apply Forall_forall; auto).
  cbv [update bind get call assign].
  rewrite E1. simp_pf. rewrite E2. simp_pf. rewrite E3. simp_pf.
  rewrite E4. simp_pf.
  destruct (resample _ (u0 rnd)) as [indices | e]; simp_pf; [ | exact Hself ].
  destruct (take_rows P2 indices) as [P3 | e] eqn:E6; simp_pf;
    [ | exact Hself ].
  assert (H3 : Forall (fun r => In r (rows P2)) (rows P3)).
  { unfold take_rows in E6.
    destruct (gather (rows P2) indices) as [rws | e] eqn:Eg; simpl in E6;
      [ | discriminate ].
    inversion E6; subst P3. now destruct (gather_spec _ _ _ Eg). }
  destruct (weighted_sum hyp _) as [mh | e]; simp_pf; [ | exact H3 ].
  destruct (weighted_sum (of_matrix P3) _) as [ms | e]; simp_pf;
    [ | exact H3 ].
  rewrite init_filter_empty_mask by (simp_pf; exact Hall).
  simp_pf. exact H3.
Qed.

(** X14. [init_filter(mask)] with a mask whose length is not the number
    of particles raises IndexError at the first prior and leaves the
    ensemble untouched. *)
Theorem init_filter_mask_length_mismatch :
  forall (s : ParticleFilter prior) (rnd : Draws) (m : list bool),
    priors s <> [] ->
    length m <> nrows (particles s) ->
    init_filter (Some m) rnd s = (Raise IndexError, s).
Proof.
  intros s rnd m Hp Hm. unfold init_filter, bind, get.
  destruct (priors s) as [| p ps]; [ congruence | ].
  cbn [init_columns]. cbv [bind init_column get call assign bool_index].
  destruct (length m =? length (rvs rnd 0 (n_particles s))); [ | reflexivity ].
  unfold set_column_masked.
  replace (length m =? nrows (particles s)) with false
    by (symmetry; now apply Nat.eqb_neq).
  reflexivity.
Qed.

End UpdateOutcome.


Lemma update_collaborator_failure_witness :
  fst (update (mk_nd [3; 1] [Fin 0; Fin 0; Fin 0]) Examples.draws
         Examples.pf1) = Raise ValueError /\
  hypotheses
    (snd (update (mk_nd [3; 1] [Fin 0; Fin 0; Fin 0]) Examples.draws
            Examples.pf1))
  = Some (of_matrix (particles Examples.pf1)).
Proof.
  destruct (proj2 (update_collaborator_failure Examples.pf1
                     (mk_nd [3; 1] [Fin 0; Fin 0; Fin 0])
                     Examples.draws ValueError)
              (particles Examples.pf1) (particles Examples.pf1)
              (of_matrix (particles Examples.pf1))
              eq_refl eq_refl eq_refl eq_refl)
    as (H1 & _ & H2 & _).
  split; [ exact H1 | exact H2 ].
Defined.

Lemma init_filter_empty_mask_witness :
  particles (snd (init_filter (Some [false; false]) Examples.fresh_draws
                    Examples.pf1))
  = particles Examples.pf1.
Proof.
  apply (init_filter_empty_mask Examples.pf1 Examples.fresh_draws
           [false; false]).
  repeat constructor.
Defined.

Lemma update_without_injection_witness :
  Forall (fun r => In r (rows (particles Examples.pf1)))
    (rows (particles
             (snd (update Examples.observed_near Examples.draws
                     Examples.pf1)))).
Proof.
  apply (update_without_injection Examples.pf1 Examples.observed_near
           Examples.draws (particles Examples.pf1) (particles Examples.pf1)
           (of_matrix (particles Examples.pf1)) (mk_nd [2] [Fin 10; Fin 1])
           eq_refl eq_refl eq_refl eq_refl).
  intros k _. reflexivity.
Defined.

Lemma init_filter_mask_length_mismatch_witness :
  init_filter (Some [true]) Examples.fresh_draws Examples.pf1
  = (Raise IndexError, Examples.pf1).
Proof.
  apply (init_filter_mask_length_mismatch Examples.pf1 Examples.fresh_draws
           [true]); discriminate.
Defined.

Section UpdateRows.

Context {prior : Type}.

Lemma gather_nth (rws : list (list num)) (indices : list Z) :
  forall out,
    gather rws indices = Ok out ->
    forall k, k < length indices ->
      exists m, norm_index (length rws) (nth k indices 0%Z) = Ok m /\
                nth_error out k = Some (nth m rws []).
Proof.
  induction indices as [| i indices IH]; intros out H k Hk;
    [ simpl in Hk; lia | ].
  cbn [gather] in H.
  destruct (norm_index (length rws) i) as [m |] eqn:Em; [ | discriminate ].
  cbn [rbind] in H.
  destruct (gather rws indices) as [rest |] eqn:Er; [ | discriminate ].
  cbn [rbind] in H. inversion H; subst out. clear H.
  destruct k as [| k].
  - exists m. split; [ exact Em | reflexivity ].
  - simpl in Hk. cbn [nth nth_error]. apply (IH rest eq_refl). lia.
Qed.

(** X15. The ensemble a returning [update] leaves.  With [indices] the
    result of the resampling step and N of them, particle [k] is a fresh
    draw from the priors when its mask draw is below
    [resample_proportion], and otherwise the particle that [indices[k]]
    selects among those the dynamics and the noise produced, an index -1
    selecting the last one. *)
Theorem update_final_particles :
  forall (s : ParticleFilter prior) (observed : ndarray) (rnd : Draws)
         (P1 P2 : matrix) (hyp w : ndarray) (N D : nat) (indices : list Z)
         (k : nat),
    dynamics_fn s (particles s) = Ok P1 ->
    noise_fn s P1 = Ok P2 ->
    inverse_fn s P2 = Ok hyp ->
    weight_fn s hyp observed = Ok w ->
    has_shape N D P2 -> n_particles s = N -> length (priors s) = D ->
    (forall c, c < D -> length (rvs rnd c N) = N) ->
    resample (np_div_scalar (np_clip w (Fin 0) PInf)
                (np_sum (np_clip w (Fin 0) PInf))) (u0 rnd) = Ok indices ->
    length indices = N ->
    fst (update observed rnd s) = Ok tt ->
    k < N ->
    exists m,
      norm_index N (nth k indices 0%Z) = Ok m /\
      nth_error (rows (particles (snd (update observed rnd s)))) k =
      Some (if (mask_draw rnd k <? resample_proportion s)%num
            then Spec.drawn_row rnd N D k
            else nth m (rows P2) []).
Proof.
  intros s observed rnd P1 P2 hyp w N D indices k E1 E2 E3 E4 Hs2 HN HD Hv
    E5 Hli Hret Hk.
  revert Hret. cbv [update bind get call assign].
  rewrite E1. simp_pf. rewrite E2. simp_pf. rewrite E3. simp_pf.
  rewrite E4. simp_pf. rewrite E5. simp_pf.
  destruct (take_rows P2 indices) as [P3 | e] eqn:E6; simp_pf;
    [ | discriminate ].
  destruct (weighted_sum hyp _) as [mh | e]; simp_pf; [ | discriminate ].
  destruct (weighted_sum (of_matrix P3) _) as [ms | e]; simp_pf;
    [ | discriminate ].
  intros _.
  pose proof (take_rows_has_shape N D P2 P3 indices Hs2 E6) as Hs3.
  rewrite Hli in Hs3.
  set (mask := map (fun i => (mask_draw rnd i <? resample_proportion s)%num)
                 (seq 0 (n_particles s))).
  set (s3 := set_resampled_particles mask _).
  assert (Hp3 : particles s3 = P3) by reflexivity.
  assert (Hlm : length mask = N)
    by (unfold mask; now rewrite length_map, length_seq).
  pose proof (init_filter_rows (Some mask) rnd N D s3 Hs3 HN HD Hlm Hv)
    as (_ & _ & Hrows).
  assert (Hg : gather (rows P2) indices = Ok (rows P3)).
  { unfold take_rows in E6.
    destruct (gather (rows P2) indices) as [rws |]; [ | discriminate ].
    cbn [rbind] in E6. injection E6 as <-. reflexivity. }
  {
    destruct (gather_nth _ _ _ Hg k ltac:(lia)) as (m & Em & Hm).
    destruct Hs2 as (Hn2 & _). unfold nrows in Hn2. rewrite Hn2 in Em.
    exists m. split; [ exact Em | ].
    rewrite (Hrows k Hk). f_equal. cbn [Spec.redrawn]. unfold mask.
    rewrite nth_map_seq by lia.
    destruct (mask_draw rnd k <? resample_proportion s)%num;
      [ reflexivity | ].
    rewrite Hp3. cbn [rows]. now apply nth_error_nth.
  }
Qed.

(** X16. A filter that has just been constructed and initialised: with
    priors that return one sample per particle, [init_filter()] on the
    object [__init__] built returns; the ensemble is [n_particles] by
    [len(priors)], particle [k] holds entry [k] of each prior's samples,
    and the attributes that only [update] assigns do not exist yet. *)
Theorem new_filter_initialised :
  forall (np_exp : num -> num) (ps : list prior)
         (inv : matrix -> result ndarray) (n : nat)
         (dyn noise : option (matrix -> result matrix))
         (wf : option (ndarray -> ndarray -> result ndarray)) (rp : num)
         (cn : option (list String.string)) (rnd : Draws),
    (forall c, c < length ps -> length (rvs rnd c n) = n) ->
    let s := __init__ np_exp ps inv n dyn noise wf rp cn in
    let s' := snd (init_filter None rnd s) in
    fst (init_filter None rnd s) = Ok tt /\
    has_shape n (length ps) (particles s') /\
    (forall k, k < n ->
       nth_error (rows (particles s')) k =
       Some (Spec.drawn_row rnd n (length ps) k)) /\
    hypotheses s' = None /\ weights s' = None /\
    mean_hypothesis s' = None /\ mean_state s' = None /\
    resampled_particles s' = None.
Proof.
  intros np_exp ps inv n dyn noise wf rp cn rnd Hv s s'.
  destruct (init_has_shape np_exp ps inv n dyn noise wf rp cn) as (Hs & _).
  fold s in Hs.
  destruct (init_filter_rows None rnd n (length ps) s Hs eq_refl eq_refl I Hv)
    as (Hret & Hs' & Hrows).
  split; [ exact Hret | ]. split; [ exact Hs' | ].
  split; [ intros k Hk; exact (Hrows k Hk) | ].
  unfold s'.
  rewrite (init_filter_keeps hypotheses), (init_filter_keeps weights),
    (init_filter_keeps mean_hypothesis), (init_filter_keeps mean_state),
    (init_filter_keeps resampled_particles) by reflexivity.
  repeat split; reflexivity.
Qed.

End UpdateRows.

Lemma update_final_particles_witness :
  exists m,
    norm_index 2 (nth 1 [0%Z; 0%Z] 0%Z) = Ok m /\
    nth_error
      (rows (particles
               (snd (update Examples.observed_near Examples.draws
                       Examples.pf1)))) 1 =
    Some (if (mask_draw Examples.draws 1
              <? resample_proportion Examples.pf1)%num
          then Spec.drawn_row Examples.draws 2 1 1
          else nth m (rows (particles Examples.pf1)) []).
Proof.
  apply (update_final_particles Examples.pf1 Examples.observed_near
           Examples.draws (particles Examples.pf1) (particles Examples.pf1)
           (of_matrix (particles Examples.pf1)) (mk_nd [2] [Fin 10; Fin 1])
           2 1 [0%Z; 0%Z] 1 eq_refl eq_refl eq_refl eq_refl has_shape_pf1
           eq_refl eq_refl rvs_draws_length eq_refl eq_refl eq_refl).
  lia.
Defined.

Lemma new_filter_initialised_witness :
  fst (init_filter None Examples.draws Examples.pf0) = Ok tt /\
  nth_error
    (rows (particles (snd (init_filter None Examples.draws Examples.pf0)))) 1
  = Some (Spec.drawn_row Examples.draws 2 1 1).
Proof.
  destruct (new_filter_initialised Examples.exp_stand_in [tt] Examples.sensor
              2 None None (Some Examples.kernel) (Fin (5 # 100)) None
              Examples.draws rvs_draws_length)
    as (H1 & _ & H2 & _).
  split; [ exact H1 | exact (H2 1 ltac:(lia)) ].
Defined.

Section WeightedSum.

Lemma nth_block (k i j : nat) (l : list num) :
  j < k -> nth j (block k i l) NaN = nth (i * k + j) l NaN.
Proof.
  intros Hj. unfold block. rewrite nth_firstn.
  replace (j <? k) with true by (symmetry; apply Nat.ltb_lt; exact Hj).
  now rewrite nth_skipn.
Qed.

(** A 1-d array is its own transpose. *)
Lemma transpose_data_vec (n : nat) (l : list num) :
  length l = n -> transpose_data [n] l = l.
Proof.
  intros Hl. cbn [transpose_data size_of fold_right seq flat_map].
  rewrite app_nil_r, map_map. subst n.
  rewrite <- (map_nth_seq l) at 2. apply map_ext_in. intros i Hi.
  apply in_seq in Hi. rewrite nth_block by lia. f_equal. lia.
Qed.

(** The transpose of an [n] by [k] array, column by column. *)
Lemma transpose_data_matrix (n k : nat) (l : list num) :
  length l = n * k ->
  transpose_data [n; k] l =
  flat_map (fun c => map (fun i => nth (i * k + c) l NaN) (seq 0 n)) (seq 0 k).
Proof.
  intros Hl. change (transpose_data [n; k] l) with
    (flat_map (fun p =>
        map (fun part => nth p part NaN)
          (map (fun i => transpose_data [k] (block (size_of [k]) i l))
             (seq 0 n)))
      (seq 0 (size_of [k]))).
  replace (size_of [k]) with k by (simpl; lia).
  apply flat_map_ext_in. intros c Hc. apply in_seq in Hc.
  rewrite map_map. apply map_ext_in. intros i Hi. apply in_seq in Hi.
  rewrite transpose_data_vec by (apply length_block; nia).
  apply nth_block. lia.
Qed.

Lemma column_of_concat (k c : nat) (rws : list (list num)) :
  Forall (fun r => length r = k) rws -> c < k ->
  map (fun i => nth (i * k + c) (concat rws) NaN) (seq 0 (length rws))
  = map (fun r => nth c r NaN) rws.
Proof.
  intros H Hc. induction H as [| r rws Hr _ IH]; [ reflexivity | ].
  cbn [length seq map concat]. f_equal.
  - rewrite app_nth1 by lia. reflexivity.
  - rewrite <- seq_shift, map_map, <- IH. apply map_ext. intros i.
    rewrite app_nth2 by nia. f_equal. nia.
Qed.

Lemma length_concat_rows (k : nat) (rws : list (list num)) :
  Forall (fun r => length r = k) rws -> length (concat rws) = length rws * k.
Proof.
  induction 1 as [| r rws Hr _ IH]; [ reflexivity | ].
  cbn [concat length]. rewrite length_app, IH, Hr. lia.
Qed.

Lemma length_flat_map_const {A} (n : nat) (f : A -> list num) (l : list A) :
  (forall a, length (f a) = n) -> length (flat_map f l) = length l * n.
Proof.
  intros H. induction l as [| a l IH]; [ reflexivity | ].
  cbn [flat_map length]. rewrite length_app, IH, H. lia.
Qed.

(** [np.sum(P.T * w, axis=-1).T] for an ensemble of N particles with D
    columns and N weights. *)
Lemma weighted_sum_columns (P : matrix) (w : list num) (N D : nat) :
  has_shape N D P -> length w = N ->
  weighted_sum (of_matrix P) (vec w) =
  Ok (mk_nd [D]
        (map (fun c =>
                Num.sum (Spec.zip_with Num.mul
                           (map (fun r => nth c r NaN) (rows P)) w))
           (seq 0 D))).
Proof.
  intros (Hn & Hk & Hr) Hw. unfold nrows in Hn.
  pose proof (length_concat_rows D (rows P) Hr) as Hlen. rewrite Hn in Hlen.
  unfold weighted_sum, np_mul, np_binop, of_matrix, vec, np_T, ndim.
  cbn [shape data rev app length Nat.max pad_shape repeat Nat.sub].
  unfold nrows. rewrite Hn, Hk. cbn [rev app length Nat.max].
  change (pad_shape 2 [D; N]) with [D; N].
  change (pad_shape 2 [length w]) with [1; length w]. rewrite Hw.
  rewrite broadcast_shape_batch. cbn [rbind].
  rewrite transpose_data_matrix by exact Hlen.
  set (T := flat_map _ (seq 0 D)).
  assert (HT : forall c, c < D ->
             block N c T = map (fun r => nth c r NaN) (rows P)).
  { intros c Hc. unfold T.
    replace N with (N * 1) at 1 by lia.
    rewrite (block_flat_map (N * 1)); [ | | exact Hc ].
    - rewrite <- Hn. now apply column_of_concat.
    - intros j _. rewrite length_map, length_seq. lia. }
  assert (HlT : length T = D * N).
  { unfold T. rewrite (length_flat_map_const N), length_seq; [ lia | ].
    intros c. now rewrite length_map, length_seq. }
  rewrite broadcast_data_batch
    by (cbn [size_of fold_right]; rewrite ?HlT, ?Hw; lia).
  unfold np_sum_last. cbn [shape data rev app size_of fold_right].
  rewrite !Nat.mul_1_r.
  assert (Hsum :
    map (fun i =>
           Num.sum (block N i
             (flat_map (fun i0 => Spec.zip_with Num.mul (block N i0 T) w)
                (seq 0 D)))) (seq 0 D)
    = map (fun c =>
             Num.sum (Spec.zip_with Num.mul
                        (map (fun r => nth c r NaN) (rows P)) w))
        (seq 0 D)).
  { apply map_ext_in. intros c Hc. apply in_seq in Hc.
    rewrite (block_flat_map N); [ | | lia ].
    - rewrite HT by lia. reflexivity.
    - intros j Hj. rewrite length_zip_with;
        rewrite HT by lia; rewrite length_map; lia. }
  rewrite Hsum. f_equal. f_equal.
  apply transpose_data_vec. now rewrite length_map, length_seq.
Qed.

Lemma nth_error_map_seq {A} (f : nat -> A) (n i : nat) :
  i < n -> nth_error (map f (seq 0 n)) i = Some (f i).
Proof.
  intros Hi. rewrite nth_error_map, nth_error_seq.
  replace (i <? n) with true by (symmetry; now apply Nat.ltb_lt).
  reflexivity.
Qed.

(** X17. The mean that [update] computes: for an ensemble of N particles
    with D columns and N weights, [np.sum(P.T * w, axis=-1).T] returns a
    vector of length D whose entry [c] is the sum over the particles of
    column [c] of the particle times the particle's weight. *)
Theorem weighted_sum_of_matrix :
  forall (P : matrix) (w : list num) (N D : nat),
    has_shape N D P -> length w = N ->
    exists ms,
      weighted_sum (of_matrix P) (vec w) = Ok ms /\
      shape ms = [D] /\
      forall c, c < D ->
        nth_error (data ms) c =
        Some (Num.sum (Spec.zip_with Num.mul
                         (map (fun r => nth c r NaN) (rows P)) w)).
Proof.
  intros P w N D Hs Hw. rewrite (weighted_sum_columns P w N D Hs Hw).
  eexists. split; [ reflexivity | ]. split; [ reflexivity | ].
  intros c Hc. cbn [data]. now rewrite nth_error_map_seq.
Qed.




End WeightedSum.

Lemma weighted_sum_of_matrix_witness :
  exists ms,
    weighted_sum
      (of_matrix
         (mk_matrix 2 [[Fin 1; Fin 2]; [Fin 3; Fin 4]; [Fin 5; Fin 6]]))
      (vec [Fin (1 # 2); Fin (1 # 4); Fin (1 # 4)]) = Ok ms /\
    shape ms = [2] /\
    nth_error (data ms) 1 =
    Some (Num.sum (Spec.zip_with Num.mul [Fin 2; Fin 4; Fin 6]
                     [Fin (1 # 2); Fin (1 # 4); Fin (1 # 4)])).
Proof.
  assert (H : has_shape 3 2
                (mk_matrix 2
                   [[Fin 1; Fin 2]; [Fin 3; Fin 4]; [Fin 5; Fin 6]]))
    by (split; [ reflexivity | split; [ reflexivity | repeat constructor ] ]).
  destruct (weighted_sum_of_matrix _ [Fin (1 # 2); Fin (1 # 4); Fin (1 # 4)]
              3 2 H eq_refl) as (ms & H1 & H2 & H3).
  exists ms. split; [ exact H1 | ]. split; [ exact H2 | ].
  apply (H3 1). lia.
Defined.


Section KernelMore.

Variable np_exp : num -> num.






Lemma square_Fin_nonneg (v : num) (q : Q) :
  Num.square v = Fin q -> (0 <= q)%Q.
Proof.
  destruct v as [a | | |]; try discriminate.
  cbn [Num.square Num.mul]. intros H.
  assert (Hq : q = Qred (a * a)) by congruence. subst q.
  rewrite Qred_correct. nra.
Qed.

Lemma squared_distance_nonneg (a b : list num) (dq : Q) :
  Spec.squared_distance a b = Fin dq -> (0 <= dq)%Q.
Proof.
  unfold Spec.squared_distance, Num.sum. intros H.
  apply fold_add_Fin_inv in H. destruct H as (qa & qs & Ha & Hl & Ht).
  inversion Ha; subst qa. rewrite Ht, Qplus_0_l.
  apply Qsum_nonneg. apply Forall_forall. intros q Hq.
  assert (Hin : In (Fin q) (map Fin qs)) by now apply in_map.
  rewrite <- Hl in Hin. apply in_map_iff in Hin.
  destruct Hin as (v & Hv & _). now apply (square_Fin_nonneg v).
Qed.

(** X20. The default kernel with bandwidth 0 does not raise: the
    quotient by [2.0*sigma**2 = 0] is numpy's, so a hypothesis at a
    positive squared distance from the observation is given [exp(-inf)]
    and one at distance 0 is given [exp(nan)]. *)
Theorem squared_error_zero_sigma :
  forall (x y : ndarray) (n h w i : nat) (dq : Q),
    shape x = [n; h; w] -> valid x -> shape y = [h; w] -> valid y ->
    i < n ->
    Spec.squared_distance (block (h * w) i (data x)) (data y) = Fin dq ->
    exists r,
      squared_error np_exp x y (Fin 0) = Ok r /\
      nth_error (data r) i =
      Some (np_exp (if Qeq_bool dq 0 then NaN else NInf)).
Proof.
  intros x y n h w i dq Hx Hvx Hy Hvy Hi Hd.
  rewrite (squared_error_images np_exp x y (Fin 0) n h w Hx Hvx
             (or_introl Hy) Hvy).
  eexists. split; [ reflexivity | ]. cbn [data].
  rewrite nth_error_map_seq by exact Hi. f_equal. f_equal.
  rewrite Hd. pose proof (squared_distance_nonneg _ _ _ Hd) as Hnn.
  change (Fin 2 * Num.square (Fin 0))%num with (Fin 0).
  unfold Num.neg, Num.div. change (0 ?= 0)%Q with Eq.
  unfold Num.signed_inf.
  destruct (Qeq_bool dq 0) eqn:E.
  - apply Qeq_bool_eq in E.
    replace (Qred (- dq) ?= 0)%Q with Eq; [ reflexivity | ].
    symmetry. apply Qeq_alt. rewrite Qred_correct, E. reflexivity.
  - apply Qeq_bool_neq in E.
    replace (Qred (- dq) ?= 0)%Q with Lt; [ reflexivity | ].
    symmetry. apply Qlt_alt. rewrite Qred_correct.
    assert (0 < dq)%Q by (apply Qle_lteq in Hnn; destruct Hnn as [H | H];
                          [ exact H | exfalso; apply E; now symmetry ]).
    apply (proj1 (Qlt_alt _ _)). lra.
Qed.

Lemma square_neg (v : num) : Num.square (Num.neg v) = Num.square v.
Proof.
  destruct v as [q | | |]; try reflexivity.
  cbn [Num.square Num.neg Num.mul]. f_equal. apply Qred_complete.
  rewrite Qred_correct. ring.
Qed.

(** X21. The heat kernel is even: [heat_distance(-d)] is
    [heat_distance(d)], for every bandwidth and every array, special
    values included. *)
Theorem make_heat_adjusted_even :
  forall (sigma : num) (dist : ndarray),
    make_heat_adjusted np_exp sigma (np_map Num.neg dist)
    = make_heat_adjusted np_exp sigma dist.
Proof.
  intros sigma dist. unfold make_heat_adjusted, np_map. cbn [shape data].
  f_equal. rewrite map_map. apply map_ext. intros v.
  now rewrite square_neg.
Qed.

(** X22. The default kernel is the heat kernel of the Euclidean distance:
    when [r] holds, for every hypothesis, a number whose square is the
    summed squared difference to the observation,
    [squared_error(x, y, sigma)] is [make_heat_adjusted(sigma)(r)]. *)
Theorem squared_error_is_heat_of_distance :
  forall (x y diff r : ndarray) (sigma : num),
    np_sub x y = Ok diff ->
    np_sum_axes12 (np_map Num.square diff) = Ok (np_map Num.square r) ->
    squared_error np_exp x y sigma = Ok (make_heat_adjusted np_exp sigma r).
Proof.
  intros x y diff r sigma E1 E2. unfold squared_error, make_heat_adjusted.
  rewrite E1. cbn [rbind]. rewrite E2. cbn [rbind]. f_equal.
  unfold np_map. cbn [shape data]. f_equal. now rewrite map_map.
Qed.

End KernelMore.

Section DefaultKernel.

Context {prior : Type}.
Variable np_exp : num -> num.

(** X23. A filter left with the default kernel only works on image
    hypotheses: when the sensor returns an array with fewer than three
    axes (the ensemble itself, for one) and the observation has fewer than
    three axes, [update] raises ValueError or AxisError out of
    [squared_error], and the object's weights are those of the cycle
    before. *)
Theorem update_default_kernel_raises :
  forall (s : ParticleFilter prior) (observed : ndarray) (rnd : Draws)
         (P1 P2 : matrix) (hyp : ndarray),
    weight_fn s = (fun a b => squared_error np_exp a b (Fin 1)) ->
    dynamics_fn s (particles s) = Ok P1 ->
    noise_fn s P1 = Ok P2 ->
    inverse_fn s P2 = Ok hyp ->
    ndim hyp < 3 -> ndim observed < 3 ->
    (fst (update observed rnd s) = Raise ValueError \/
     fst (update observed rnd s) = Raise AxisError) /\
    weights (snd (update observed rnd s)) = weights s.
Proof.
  intros s observed rnd P1 P2 hyp Hw E1 E2 E3 Hh Ho.
  cbv [update bind get call assign].
  rewrite E1. simp_pf. rewrite E2. simp_pf. rewrite E3. simp_pf.
  rewrite Hw.
  destruct (squared_error_needs_three_axes np_exp hyp observed (Fin 1) Hh Ho)
    as [E | E]; rewrite E; simp_pf; split; auto.
Qed.

End DefaultKernel.


Lemma squared_error_zero_sigma_witness :
  exists r,
    squared_error Examples.exp_stand_in Examples.images
      Examples.observed_image (Fin 0) = Ok r /\
    nth_error (data r) 0 =
    Some (Examples.exp_stand_in (if Qeq_bool 14 0 then NaN else NInf)).
Proof.
  apply (squared_error_zero_sigma Examples.exp_stand_in Examples.images
           Examples.observed_image 2 2 2 0 14 eq_refl eq_refl eq_refl eq_refl).
  - lia.
  - reflexivity.
Defined.

Lemma squared_error_is_heat_of_distance_witness :
  squared_error Examples.exp_stand_in
    (mk_nd [1; 2; 2] [Fin 1; Fin 1; Fin 3; Fin 1])
    Examples.observed_image (Fin 1)
  = Ok (make_heat_adjusted Examples.exp_stand_in (Fin 1) (mk_nd [1] [Fin 2])).
Proof.
  exact (squared_error_is_heat_of_distance Examples.exp_stand_in
           (mk_nd [1; 2; 2] [Fin 1; Fin 1; Fin 3; Fin 1])
           Examples.observed_image
           (mk_nd [1; 2; 2] [Fin 0; Fin 0; Fin 2; Fin 0])
           (mk_nd [1] [Fin 2]) (Fin 1) eq_refl eq_refl).
Defined.

Lemma update_default_kernel_raises_witness :
  (fst (update Examples.observed_near Examples.draws Examples.pf_default)
   = Raise ValueError \/
   fst (update Examples.observed_near Examples.draws Examples.pf_default)
   = Raise AxisError) /\
  weights (snd (update Examples.observed_near Examples.draws
                  Examples.pf_default))
  = weights Examples.pf_default.
Proof.
  apply (update_default_kernel_raises Examples.exp_stand_in
           Examples.pf_default Examples.observed_near Examples.draws
           (particles Examples.pf_default) (particles Examples.pf_default)
           (of_matrix (particles Examples.pf_default))
           eq_refl eq_refl eq_refl eq_refl).
  - unfold ndim. simpl. lia.
  - unfold ndim. simpl. lia.
Defined.

Section GaussianNoise.

Variable gauss : nat -> nat -> num.

Lemma existsb_negative (sigmas : list num) :
  Forall (fun sg => (sg <? Fin 0)%num = false) sigmas ->
  existsb (fun sg => (sg <? Fin 0)%num) sigmas = false.
Proof.
  induction 1 as [| sg l H _ IH]; [ reflexivity | ].
  cbn [existsb]. now rewrite H, IH.
Qed.

Lemma zip_with_noise (sigmas : list num) (r : list num) (g : nat -> num) :
  length r = length sigmas ->
  Spec.zip_with Num.add r
    (map (fun c => (Fin 0 + nth c sigmas NaN * g c)%num)
       (seq 0 (length sigmas)))
  = map (fun c => (nth c r NaN + (Fin 0 + nth c sigmas NaN * g c))%num)
      (seq 0 (length sigmas)).
Proof.
  intros Hl. rewrite <- (map_nth_seq r) at 1. rewrite Hl.
  unfold Spec.zip_with. induction (seq 0 (length sigmas)) as [| c l IH];
    [ reflexivity | ].
  cbn [map combine fst snd]. now rewrite IH.
Qed.

Lemma zip_with_noise_rows (sigmas : list num) (rws : list (list num)) :
  Forall (fun r => length r = length sigmas) rws ->
  forall g : nat -> nat -> num,
    Spec.zip_with Num.add (concat rws)
      (flat_map (fun i =>
           map (fun c => (Fin 0 + nth c sigmas NaN * g i c)%num)
             (seq 0 (length sigmas)))
         (seq 0 (length rws)))
    = concat (map (fun i => Spec.noisy_row g sigmas i (nth i rws []))
                (seq 0 (length rws))).
Proof.
  induction 1 as [| r rws Hlr _ IH]; intros g; [ reflexivity | ].
  cbn [length concat]. rewrite flat_map_seq_S.
  cbn [seq map concat nth]. rewrite <- seq_shift, map_map.
  rewrite zip_with_app by (rewrite length_map, length_seq; exact Hlr).
  f_equal.
  - apply zip_with_noise. exact Hlr.
  - exact (IH (fun i => g (S i))).
Qed.

Lemma gaussian_noise_matrix (P : matrix) (sigmas : list num) (N D : nat) :
  has_shape N D P -> length sigmas = D ->
  Forall (fun sg => (sg <? Fin 0)%num = false) sigmas ->
  gaussian_noise gauss (of_matrix P) sigmas =
  Ok (mk_nd [N; D]
        (concat (map (fun i => Spec.noisy_row gauss sigmas i
                                 (nth i (rows P) []))
                   (seq 0 N)))).
Proof.
  intros (Hn & Hk & Hr) Hs Hpos. unfold nrows in Hn.
  unfold gaussian_noise, np_random_normal, of_matrix, nrows.
  cbn [shape]. rewrite existsb_negative by exact Hpos. cbn [rbind].
  unfold np_add, np_binop, ndim. cbn [shape data length Nat.max].
  rewrite Hn, Hk, Hs. change (pad_shape 2 [N; D]) with [N; D].
  rewrite broadcast_shape_same.
  pose proof (length_concat_rows D (rows P) Hr) as Hlen. rewrite Hn in Hlen.
  rewrite broadcast_data_same.
  - f_equal. f_equal. rewrite <- Hn, <- Hs. apply zip_with_noise_rows.
    now rewrite Hs.
  - cbn [size_of fold_right]. lia.
  - rewrite (length_flat_map_const D), length_seq;
      [ cbn [size_of fold_right]; lia | ].
    intros i. now rewrite length_map, length_seq.
Qed.

(** X24. [gaussian_noise] on an ensemble.  For N particles with D
    columns, D sigmas and none of them negative, the call returns an
    ensemble of the same shape, and column [c] of particle [i] is the old
    value plus [sigmas[c]] times the standard normal value drawn for that
    entry. *)
Theorem gaussian_noise_on_ensemble :
  forall (P : matrix) (sigmas : list num) (N D : nat),
    has_shape N D P -> length sigmas = D ->
    Forall (fun sg => (sg <? Fin 0)%num = false) sigmas ->
    exists P',
      gaussian_noise gauss (of_matrix P) sigmas = Ok (of_matrix P') /\
      has_shape N D P' /\
      forall i c, i < N -> c < D ->
        nth c (nth i (rows P') []) NaN =
        (nth c (nth i (rows P) []) NaN
         + (Fin 0 + nth c sigmas NaN * gauss i c))%num.
Proof.
  intros P sigmas N D Hs Hl Hpos.
  exists (mk_matrix D
            (map (fun i => Spec.noisy_row gauss sigmas i (nth i (rows P) []))
               (seq 0 N))).
  split; [ | split ].
  - rewrite (gaussian_noise_matrix P sigmas N D Hs Hl Hpos).
    unfold of_matrix, nrows. cbn [rows ncols].
    now rewrite length_map, length_seq.
  - split; [ | split ].
    + unfold nrows. cbn [rows]. now rewrite length_map, length_seq.
    + reflexivity.
    + cbn [rows]. apply Forall_forall. intros r Hr.
      apply in_map_iff in Hr. destruct Hr as (i & <- & _).
      unfold Spec.noisy_row. now rewrite length_map, length_seq.
  - intros i c Hi Hc. cbn [rows]. rewrite nth_map_seq by exact Hi.
    unfold Spec.noisy_row. rewrite Hl. now rewrite nth_map_seq by exact Hc.
Qed.

(** X25. What [gaussian_noise] raises: IndexError on a 0-d array, from
    [x.shape[0]], whatever the sigmas are; otherwise ValueError, when a
    sigma is negative or the shape of [x] cannot be broadcast with that of
    the noise, [x.shape[0]] by the number of sigmas; and nothing else. *)
Theorem gaussian_noise_exceptions :
  forall (x : ndarray) (sigmas : list num) (e : exn),
    gaussian_noise gauss x sigmas = Raise e ->
    (shape x = [] /\ e = IndexError) \/
    (shape x <> [] /\ e = ValueError /\
     ((exists sg, In sg sigmas /\ (sg <? Fin 0)%num = true) \/
      broadcast_shape (pad_shape (Nat.max (ndim x) 2) (shape x))
        (pad_shape (Nat.max (ndim x) 2) [hd 0 (shape x); length sigmas])
      = None)).
Proof.
  intros x sigmas e H. unfold gaussian_noise in H.
  destruct (shape x) as [| n sh] eqn:Ex.
  - left. split; [ reflexivity | congruence ].
  - right. split; [ discriminate | ].
    unfold np_random_normal in H.
    destruct (existsb _ sigmas) eqn:Eb.
    + cbn [rbind] in H. split; [ congruence | ]. left.
      apply existsb_exists in Eb. exact Eb.
    + cbn [rbind] in H. unfold np_add, np_binop, ndim in H.
      cbn [shape length hd] in H. rewrite Ex in H. cbn [hd].
      unfold ndim. rewrite Ex.
      destruct (broadcast_shape _ _) eqn:Eb2; [ discriminate | ].
      split; [ congruence | ]. right. reflexivity.
Qed.

Lemma add_zero_noise (v z : num) :
  is_fin v = true -> is_fin z = true ->
  (v + (Fin 0 + Fin 0 * z) =~ v)%num.
Proof.
  destruct v as [a | | |]; try discriminate.
  destruct z as [b | | |]; try discriminate. intros _ _.
  cbn [Num.mul Num.add Num.eqv]. rewrite !Qred_correct. ring.
Qed.

(** X26. Sigmas that are all 0 add no noise: on an ensemble of finite
    numbers, with finite standard normal draws, every entry of the result
    has the value it had. *)
Theorem gaussian_noise_zero_sigmas :
  forall (P : matrix) (N D : nat),
    has_shape N D P ->
    Forall (Forall (fun v => is_fin v = true)) (rows P) ->
    (forall i c, is_fin (gauss i c) = true) ->
    exists r,
      gaussian_noise gauss (of_matrix P) (repeat (Fin 0) D) = Ok r /\
      shape r = [N; D] /\
      Forall2 Num.eqv (data r) (concat (rows P)).
Proof.
  intros P N D Hs Hfin Hg.
  rewrite (gaussian_noise_matrix P (repeat (Fin 0) D) N D Hs
             (repeat_length _ _)).
  2:{ apply Forall_forall. intros sg Hsg. apply repeat_spec in Hsg.
      now subst sg. }
  eexists. split; [ reflexivity | ]. split; [ reflexivity | ].
  cbn [data]. destruct Hs as (Hn & _ & Hr). unfold nrows in Hn. subst N.
  generalize gauss Hg. clear Hg.
  induction (rows P) as [| r rws IH]; intros g Hg; [ constructor | ].
  cbn [length seq map concat nth]. rewrite <- seq_shift, map_map.
  apply Forall2_app.
  - clear IH. unfold Spec.noisy_row. rewrite repeat_length.
    pose proof (Forall_inv Hr) as Hlr. cbn beta in Hlr.
    pose proof (Forall_inv Hfin) as Hfr. cbn beta in Hfr.
    pose proof (map_nth_seq r) as Hm. rewrite Hlr in Hm.
    rewrite <- Hm at 1. clear Hm.
    assert (Hc : forall c, In c (seq 0 D) ->
               (nth c r NaN + (Fin 0 + nth c (repeat (Fin 0) D) NaN * g 0 c)
                =~ nth c r NaN)%num).
    { intros c Hc. apply in_seq in Hc.
      rewrite (nth_indep (repeat (Fin 0) D) NaN (Fin 0))
        by (rewrite repeat_length; lia).
      rewrite nth_repeat. apply add_zero_noise; [ | apply Hg ].
      rewrite Forall_forall in Hfr. apply Hfr, nth_In. lia. }
    induction (seq 0 D) as [| c l IHl]; [ constructor | ].
    cbn [map]. constructor; [ apply Hc; now left | ].
    apply IHl. intros c' Hc'. apply Hc. now right.
  - apply (IH (Forall_inv_tail Hr) (Forall_inv_tail Hfin)
             (fun i => g (S i))).
    intros i c. apply Hg.
Qed.

End GaussianNoise.

Lemma gaussian_noise_on_ensemble_witness :
  exists P',
    gaussian_noise (fun _ _ => Fin 1) (of_matrix (particles Examples.pf1))
      [Fin (1 # 2)] = Ok (of_matrix P') /\
    has_shape 2 1 P' /\
    nth 0 (nth 1 (rows P') []) NaN =
    (nth 0 (nth 1 (rows (particles Examples.pf1)) []) NaN
     + (Fin 0 + nth 0 [Fin (1 # 2)] NaN * Fin 1))%num.
Proof.
  destruct (gaussian_noise_on_ensemble (fun _ _ => Fin 1)
              (particles Examples.pf1) [Fin (1 # 2)] 2 1 has_shape_pf1
              eq_refl
              (Forall_cons (Fin (1 # 2)) eq_refl (Forall_nil _)))
    as (P' & H1 & H2 & H3).
  exists P'. split; [ exact H1 | ]. split; [ exact H2 | ].
  apply (H3 1 0); lia.
Defined.

Lemma gaussian_noise_exceptions_witness :
  (shape (of_matrix (particles Examples.pf1)) = [] /\
   ValueError = IndexError) \/
  (shape (of_matrix (particles Examples.pf1)) <> [] /\
   ValueError = ValueError /\
   ((exists sg, In sg [Fin (-1)] /\ (sg <? Fin 0)%num = true) \/
    broadcast_shape
      (pad_shape (Nat.max (ndim (of_matrix (particles Examples.pf1))) 2)
         (shape (of_matrix (particles Examples.pf1))))
      (pad_shape (Nat.max (ndim (of_matrix (particles Examples.pf1))) 2)
         [hd 0 (shape (of_matrix (particles Examples.pf1)));
          length [Fin (-1)]])
    = None)).
Proof.
  exact (gaussian_noise_exceptions (fun _ _ => Fin 1)
           (of_matrix (particles Examples.pf1)) [Fin (-1)] ValueError
           eq_refl).
Defined.

Lemma gaussian_noise_zero_sigmas_witness :
  exists r,
    gaussian_noise (fun _ _ => Fin 1) (of_matrix (particles Examples.pf1))
      (repeat (Fin 0) 1) = Ok r /\
    shape r = [2; 1] /\
    Forall2 Num.eqv (data r) (concat (rows (particles Examples.pf1))).
Proof.
  apply (gaussian_noise_zero_sigmas (fun _ _ => Fin 1)
           (particles Examples.pf1) 2 1 has_shape_pf1).
  - repeat constructor.
  - intros i c. reflexivity.
Defined.
